(** * translog: line parsing, type inference and the file sink

    A shallow embedding of the worker package of translog
    (log_parser.go and file.go) together with the properties of its
    parsing engine and of its sink.

    The Go standard library and the third-party packages the worker calls
    (time, strconv.ParseFloat, net/url, regexp, encoding/json, viper) are
    not part of the repository.  They are taken as an interface, the class
    [GoLib], and every general theorem holds for all of its instances.
    [strconv.ParseInt] and [strconv.ParseBool] have a small, stable,
    documented behaviour and are written out. *)

From Stdlib Require Import ZArith Floats Ascii String.
From stdpp Require Import gmap strings list fin_maps sorting pretty.
From Equations Require Import Equations.

Open Scope string_scope.
Set Warnings "-clear-no-such-hyp".

(** ** Values and events *)

(** A [time.Time]: an instant and the zone offset it was parsed with. *)
Record Time := mkTime { unixSec : Z; nanoSec : Z; zoneOffset : Z }.

(** The dynamic values [parseString] stores in an event
    ([interface{}] holding one of five concrete types). *)
Inductive Value :=
| VTime (t : Time)
| VInt (n : Z)
| VBool (b : bool)
| VFloat (f : float)
| VString (s : string).

(** [map[string]interface{}] *)
Abbreviation Event := (gmap string Value).

(** What a call does: return, return an error, or panic. *)
Inductive result (A : Type) :=
| Ok (a : A)
| Err (msg : string)
| Panic (msg : string).
Arguments Ok {A} a.
Arguments Err {A} msg.
Arguments Panic {A} msg.

(** ** The libraries the worker calls *)

(** [*regexp.Regexp], as far as the worker uses it. *)
Record Regexp := {
  SubexpNames : list string;
  FindStringSubmatch : string → option (list string)
}.

(** [*viper.Viper], as far as the worker uses it. *)
Record Viper := {
  GetString : string → string;
  GetStringSlice : string → list string;
  GetBool : string → bool;
  IsSet : string → bool
}.

Class GoLib := {
  (** [time.Parse layout value]; [None] when it returns an error. *)
  time_Parse : string → string → option Time;
  (** [strconv.ParseFloat s 64]; [None] when it returns an error. *)
  strconv_ParseFloat : string → option float;
  (** [url.Parse uri] followed by [Query()]: [None] when parsing fails,
      otherwise the entries of the query map in the order [range] visits
      them. *)
  url_Query : string → option (list (string * list string));
  (** [regexp.Compile] *)
  regexp_Compile : string → option Regexp;
  (** [json.Marshal]; [None] when it returns an error. *)
  json_Marshal : Event → option string
}.

(** ** strconv.ParseInt and strconv.ParseBool *)

Definition digit (c : ascii) : option Z :=
  let n := Z.of_nat (nat_of_ascii c) in
  if (48 <=? n)%Z && (n <=? 57)%Z then Some (n - 48)%Z else None.

Fixpoint parseDigits (s : string) (acc : Z) : option Z :=
  match s with
  | EmptyString => Some acc
  | String c r =>
      match digit c with
      | Some d => parseDigits r (10 * acc + d)%Z
      | None => None
      end
  end.

(** [strconv.ParseUint s 10 64] before its range check: the digits are
    accumulated without a bound, and [ParseInt] below rejects what does not
    fit. *)
Definition ParseUint (s : string) : option Z :=
  match s with
  | EmptyString => None
  | _ => parseDigits s 0
  end.

(** [strconv.ParseInt s 10 64]; [None] when it returns an error (syntax
    or range). *)
Definition ParseInt (s : string) : option Z :=
  match s with
  | EmptyString => None
  | String c r =>
      let neg := Ascii.eqb c "-" in
      let body := if Ascii.eqb c "+" || neg then r else s in
      match ParseUint body with
      | None => None
      | Some un =>
          let cutoff := (2 ^ 63)%Z in
          if negb neg && (cutoff <=? un)%Z then None
          else if neg && (cutoff <? un)%Z then None
          else Some (if neg then (- un)%Z else un)
      end
  end.

(** [strconv.ParseBool]; [None] when it returns an error. *)
Definition ParseBool (s : string) : option bool :=
  if existsb (String.eqb s) ["1"; "t"; "T"; "TRUE"; "true"; "True"] then Some true
  else if existsb (String.eqb s) ["0"; "f"; "F"; "FALSE"; "false"; "False"] then Some false
  else None.

(** [math.IsNaN] *)
Definition IsNaN (f : float) : bool := negb (PrimFloat.eqb f f).

(** ** log_parser.go *)

Definition configParseKeysToIgnore := "parse.keys_to_ignore".
Definition configParseTimePatterns := "parse.time_patterns".
Definition configParsePattern := "parse.pattern".
Definition configTailReopen := "time.reopen".
Definition DefaultParseLogPattern := "".

(** The longest key of an event bounds the recursion of [newKeyName]: a
    name that is a key is no longer than it, and every call adds one
    character. *)
Definition maxKeyLen (m : Event) : nat :=
  max_list ((String.length ∘ fst) <$> map_to_list m).

Equations? newKeyName (k : string) (m : Event) : string
  by wf (S (maxKeyLen m) - String.length k)%nat lt :=
newKeyName k m with decide (is_Some (m !! k)) := {
  | right _ => k
  | left found => newKeyName ("_" +:+ k) m
}.
Proof.
  assert (String.length k ≤ maxKeyLen m)%nat as Hlen.
  { destruct found as [x Hx]. unfold maxKeyLen.
    apply max_list_elem_of_le, list_elem_of_fmap.
    exists (k, x). split; [done |]. by apply elem_of_map_to_list. }
  change ("" +:+ k) with k. lia.
Qed.

(** [LogParser]; the channel and the tailer play no part in parsing. *)
Record LogParser := {
  Config : Viper;
  InputFile : string;
  regex : option Regexp   (* a nil pointer until [Init] succeeds *)
}.

(** [tail.SeekInfo] and the fields of [tail.Config] that [convertConfig]
    sets. A nil [Location] makes the tail library read from the start. *)
Record SeekInfo := { Offset : Z; Whence : Z }.
Record TailConfig := {
  Location : option SeekInfo;
  ReOpen : bool;
  Follow : bool
}.

Definition SEEK_END : Z := 2.

(** The layouts of package time that [parseString] falls back to. *)
Definition ANSIC := "Mon Jan _2 15:04:05 2006".
Definition UnixDate := "Mon Jan _2 15:04:05 MST 2006".
Definition RubyDate := "Mon Jan 02 15:04:05 -0700 2006".
Definition RFC822 := "02 Jan 06 15:04 MST".
Definition RFC822Z := "02 Jan 06 15:04 -0700".
Definition RFC850 := "Monday, 02-Jan-06 15:04:05 MST".
Definition RFC1123 := "Mon, 02 Jan 2006 15:04:05 MST".
Definition RFC1123Z := "Mon, 02 Jan 2006 15:04:05 -0700".
Definition RFC3339 := "2006-01-02T15:04:05Z07:00".
Definition RFC3339Nano := "2006-01-02T15:04:05.999999999Z07:00".

Fixpoint sliceContains (list : list string) (a : string) : bool :=
  match list with
  | [] => false
  | b :: rest => if String.eqb b a then true else sliceContains rest a
  end.

Definition shouldIgnore (worker : LogParser) (key : string) : bool :=
  let keysToIgnore := GetStringSlice (Config worker) configParseKeysToIgnore in
  String.eqb key "" || sliceContains keysToIgnore key.

Section Parser.
Context `{GoLib}.

(** The loop over the configured time patterns at the head of
    [parseString]. *)
Fixpoint tryTimePatterns (timePatterns : list string) (ts : string) : option Time :=
  match timePatterns with
  | [] => None
  | timePattern :: rest =>
      match time_Parse timePattern ts with
      | Some t => Some t
      | None => tryTimePatterns rest ts
      end
  end.

Definition parseString (ts : string) (config : Viper) : Value :=
  let timePatterns := GetStringSlice config configParseTimePatterns in
  match tryTimePatterns timePatterns ts with Some t => VTime t | None =>
  let nginxFormat := "02/Jan/2006:15:04:05 -0700" in
  match time_Parse nginxFormat ts with Some t => VTime t | None =>
  match time_Parse ANSIC ts with Some t => VTime t | None =>
  match time_Parse UnixDate ts with Some t => VTime t | None =>
  match time_Parse RubyDate ts with Some t => VTime t | None =>
  match time_Parse RFC822 ts with Some t => VTime t | None =>
  match time_Parse RFC822Z ts with Some t => VTime t | None =>
  match time_Parse RFC850 ts with Some t => VTime t | None =>
  match time_Parse RFC1123 ts with Some t => VTime t | None =>
  match time_Parse RFC1123Z ts with Some t => VTime t | None =>
  match time_Parse RFC3339 ts with Some t => VTime t | None =>
  match time_Parse RFC3339Nano ts with Some t => VTime t | None =>
  match ParseInt ts with Some pi => VInt pi | None =>
  match ParseBool ts with Some pb => VBool pb | None =>
  match strconv_ParseFloat ts with
  | Some pf =>
      (* it might be the string "NaN" *)
      if negb (IsNaN pf) then VFloat pf
      else VFloat 0
  | None => VString ts
  end end end end end end end end end end end end end end end.

(** The body of the [range q] loop of [ParseURI], for one entry. *)
Definition ParseURI_entry (worker : LogParser) (v : Event)
    (entry : string * list string) : Event :=
  let '(k, kvs) := entry in
  let newKey := newKeyName k v in
  match kvs with
  | kv0 :: _ =>
      if negb (shouldIgnore worker newKey)
      then <[newKey := parseString kv0 (Config worker)]> v
      else v
  | [] => v
  end.

Definition ParseURI (worker : LogParser) (uri : string) (v : Event) : Event :=
  if negb (String.eqb uri "") then
    match url_Query uri with
    | Some q => foldl (ParseURI_entry worker) v q
    | None => v
    end
  else v.

(** The [range match] loop of [ParseEvents] from index [i] on. *)
Fixpoint ParseEvents_loop (worker : LogParser) (names : list string)
    (i : nat) (submatches : list string) (v : Event) : result Event :=
  match submatches with
  | [] => Ok v
  | submatch :: rest =>
      match names !! i with
      | None => Panic "index out of range"
      | Some name =>
          let v1 :=
            if negb (shouldIgnore worker name)
            then <[name := parseString submatch (Config worker)]> v
            else v in
          let v2 :=
            if String.eqb name "uri" then ParseURI worker submatch v1 else v1 in
          ParseEvents_loop worker names (S i) rest v2
      end
  end.

Definition ParseEvents (worker : LogParser) (line : string) : result Event :=
  match regex worker with
  | None => Panic "invalid memory address or nil pointer dereference"
  | Some re =>
      let v : Event := ∅ in
      let match_ := FindStringSubmatch re line in
      let names := SubexpNames re in
      match match_ with
      | Some submatches => ParseEvents_loop worker names 0 submatches v
      | None => Err ("Line " +:+ line +:+ " did not match pattern.")
      end
  end.

Definition convertConfig (worker : LogParser) : TailConfig :=
  let location :=
    if negb (GetBool (Config worker) "tail.from_beginng")
    then Some {| Offset := 0; Whence := SEEK_END |}
    else None in
  let reopen :=
    if IsSet (Config worker) "tail.reopen"
    then GetBool (Config worker) configTailReopen
    else false in
  {| Location := location; ReOpen := reopen; Follow := true |}.

Definition Init (worker : LogParser) : LogParser :=
  let pattern := GetString (Config worker) configParsePattern in
  let pattern := if String.eqb pattern "" then DefaultParseLogPattern else pattern in
  match regexp_Compile pattern with
  | None => worker
  | Some re =>
      {| Config := Config worker; InputFile := InputFile worker; regex := Some re |}
  end.

End Parser.

(** *** Start

    The tail library and [strings.TrimSpace] are taken as an interface as
    well. *)
Class TailLib := {
  (** [tail.TailFile file config]: [None] when it returns an error,
      otherwise the texts its [Lines] channel delivers, in order, until
      the channel is closed. *)
  tail_TailFile : string → TailConfig → option (list string);
  (** [strings.TrimSpace] *)
  strings_TrimSpace : string → string
}.

Section Tailing.
Context `{GoLib} `{TailLib}.

(** The [range t.Lines] loop of [Start]: the events handed to a goroutine
    for sending, in the order of their lines.  Each goroutine sends on its
    own, so the order in which the channel delivers them is not fixed by
    the loop. *)
Fixpoint Start_loop (worker : LogParser) (lines : list string) : result (list Event) :=
  match lines with
  | [] => Ok []
  | line :: rest =>
      let s := strings_TrimSpace line in
      match ParseEvents worker s with
      | Ok v =>
          match Start_loop worker rest with
          | Ok sent => Ok (v :: sent)
          | Err msg => Err msg
          | Panic msg => Panic msg
          end
      | Err _ => Start_loop worker rest
      | Panic msg => Panic msg
      end
  end.

Definition Start (worker : LogParser) : result (list Event) :=
  let worker := Init worker in
  let inputFile := InputFile worker in
  match tail_TailFile inputFile (convertConfig worker) with
  | None => Ok []
  | Some lines => Start_loop worker lines
  end.

End Tailing.

(** ** file.go *)

(** *** The part of package os the sink uses

    An [*os.File] is an index into the table of file objects created so
    far; [None] is the nil pointer.  Opening a path in [denied] fails. *)
Record File := {
  fpath : string;
  fclosed : bool;
  fappend : bool;
  fwritable : bool;
  fpos : nat
}.

Inductive Level := LDebug | LInfo | LWarn.

Record World := {
  disk : gmap string string;
  files : list File;
  denied : gset string;
  logs : list (Level * string)
}.

(** State passing over the world. *)
Definition M (A : Type) : Type := World → A * World.
#[export] Instance M_ret : MRet M := λ A a w, (a, w).
#[export] Instance M_bind : MBind M := λ A B f c w, let '(a, w') := c w in f a w'.

Definition O_WRONLY : Z := 1.
Definition O_RDWR : Z := 2.
Definition O_CREATE : Z := 64.
Definition O_APPEND : Z := 1024.

Definition hasFlag (flag bit : Z) : bool := negb (Z.land flag bit =? 0)%Z.

Definition logf (lvl : Level) (msg : string) : M unit :=
  λ w, (tt, {| disk := disk w; files := files w; denied := denied w;
               logs := logs w ++ [(lvl, msg)] |}).

(** [os.OpenFile name flag perm]: the new file object, or the error. *)
Definition OpenFile (name : string) (flag perm : Z) : M (nat + string) :=
  λ w,
    if decide (name ∈ denied w) then (inr "permission denied", w)
    else if negb (bool_decide (is_Some (disk w !! name))) && negb (hasFlag flag O_CREATE)
    then (inr "no such file or directory", w)
    else
      let f := {| fpath := name; fclosed := false;
                  fappend := hasFlag flag O_APPEND;
                  fwritable := hasFlag flag O_WRONLY || hasFlag flag O_RDWR;
                  fpos := 0 |} in
      let disk' := match disk w !! name with
                   | Some _ => disk w
                   | None => <[name := ""]> (disk w)
                   end in
      (inl (length (files w)),
       {| disk := disk'; files := files w ++ [f]; denied := denied w;
          logs := logs w |}).

(** [Close] of an [*os.File]; the error, if any. *)
Definition Close (h : nat) : M (option string) :=
  λ w,
    match files w !! h with
    | None => (Some "invalid argument", w)
    | Some f =>
        if fclosed f then (Some "file already closed", w)
        else
          let f' := {| fpath := fpath f; fclosed := true; fappend := fappend f;
                       fwritable := fwritable f; fpos := fpos f |} in
          (None, {| disk := disk w; files := <[h := f']> (files w);
                    denied := denied w; logs := logs w |})
    end.

Definition overwrite (old : string) (pos : nat) (s : string) : string :=
  String.substring 0 pos old +:+ s +:+
  String.substring (pos + String.length s)
                   (String.length old - (pos + String.length s)) old.

(** [WriteString] of an [*os.File], on a possibly nil file; the error, if any.
    A nil, closed or read-only file takes no bytes. *)
Definition WriteString (out : option nat) (s : string) : M (option string) :=
  λ w,
    match out with
    | None => (Some "invalid argument", w)
    | Some h =>
        match files w !! h with
        | None => (Some "invalid argument", w)
        | Some f =>
            if fclosed f then (Some "file already closed", w)
            else if negb (fwritable f) then (Some "bad file descriptor", w)
            else
              let old := default "" (disk w !! fpath f) in
              let new := if fappend f then old +:+ s else overwrite old (fpos f) s in
              let pos := if fappend f then String.length new
                         else (fpos f + String.length s)%nat in
              let f' := {| fpath := fpath f; fclosed := false; fappend := fappend f;
                           fwritable := fwritable f; fpos := pos |} in
              (None, {| disk := <[fpath f := new]> (disk w);
                        files := <[h := f']> (files w);
                        denied := denied w; logs := logs w |})
        end
    end.

(** *** The worker *)

(** The line feed [Work] writes after every object. *)
Definition newline : string := String "010" "".

(** [FileWorker]; the channels are the inputs of [Work]. *)
Record FileWorker := {
  outFileName : string;
  out : option nat
}.

(** What the [select] of [Work] receives. *)
Inductive Message :=
| WorkMessage (obj : Event)
| QuitMessage.

(** The configuration is global and may change between two calls, so every
    call takes the configuration as it is at that moment. *)
Definition ConfiguredFileOutputName (viper : Viper) : string :=
  let key := "file.output" in
  if IsSet viper key then GetString viper key
  else "output.jsonl".

Definition CachedFileHandle (viper : Viper) (w : FileWorker)
  : M (option nat * FileWorker) :=
  let fileName := ConfiguredFileOutputName viper in
  if negb (String.eqb fileName (outFileName w)) then
    _ ← match out w with
        | Some h => Close h
        | None => mret None
        end;
    r ← OpenFile fileName (Z.lor (Z.lor O_APPEND O_CREATE) O_WRONLY) 438;
    match r with
    | inr err =>
        _ ← logf LWarn ("Unable to create output file " +:+ fileName +:+
                         " because of " +:+ err);
        mret (out w, w)
    | inl handle =>
        let w' := {| outFileName := fileName; out := Some handle |} in
        mret (out w', w')
    end
  else mret (out w, w).

Section Sink.
Context `{GoLib}.

(** One turn of the [for]/[select] loop of [Work]: the worker afterwards,
    and whether the loop goes on. *)
Definition Work_step (viper : Viper) (w : FileWorker) (msg : Message)
  : M (bool * FileWorker) :=
  match msg with
  | WorkMessage obj =>
      match json_Marshal obj with
      | None =>
          _ ← logf LInfo "Unable to marshal object";
          mret (true, w)
      | Some line =>
          '(out, w') ← CachedFileHandle viper w;
          _ ← WriteString out line;
          _ ← WriteString out newline;
          mret (true, w')
      end
  | QuitMessage =>
      _ ← logf LInfo "Worker received quit";
      mret (false, w)
  end.

(** [Work] over the messages the channels deliver, each with the
    configuration in force when it is received. *)
Fixpoint Work (w : FileWorker) (inbox : list (Viper * Message))
  : M FileWorker :=
  match inbox with
  | [] => mret w
  | (viper, msg) :: rest =>
      '(continue, w') ← Work_step viper w msg;
      if (continue : bool) then Work w' rest else mret w'
  end.

End Sink.

(** [Close] called on a possibly nil file. *)
Definition closeFile (out : option nat) : M (option string) :=
  match out with
  | Some h => Close h
  | None => mret (Some "invalid argument")
  end.

(** [Init] of the [FileWorker]: the quit channel is made and the output
    file is opened once, its handle discarded. *)
Definition FileWorker_Init (viper : Viper) (w : FileWorker) : M FileWorker :=
  '(_, w') ← CachedFileHandle viper w;
  mret w'.

(** [Stop] of the [FileWorker], up to the send on the quit channel, which
    [Work] receives as a [QuitMessage]. *)
Definition FileWorker_Stop (viper : Viper) (w : FileWorker) : M FileWorker :=
  '(out, w') ← CachedFileHandle viper w;
  _ ← closeFile out;
  mret w'.

(** ** A concrete environment

    An instance of [GoLib] and of [Viper] on which the model runs.  Each
    function covers a small, named fragment of the library it stands for,
    refuses what lies outside the fragment, and agrees with the library on
    the inputs the examples below use. *)
Module Env.

(** Configuration values and a flat store of them. *)
Inductive Setting :=
| SBool (b : bool)
| SString (s : string)
| SStrings (l : list string).

Definition viperOf (settings : gmap string Setting) : Viper := {|
  GetString k := match settings !! k with
                 | Some (SString s) => s
                 | _ => ""
                 end;
  GetStringSlice k := match settings !! k with
                      | Some (SStrings l) => l
                      | _ => []
                      end;
  GetBool k := match settings !! k with
               | Some (SBool b) => b
               | Some (SString s) => default false (ParseBool s)
               | _ => false
               end;
  IsSet k := bool_decide (is_Some (settings !! k))
|}.

(** String helpers. *)
Fixpoint splitOn (sep : ascii) (s : string) : list string :=
  match s with
  | EmptyString => [""]
  | String c r =>
      if Ascii.eqb c sep then "" :: splitOn sep r
      else match splitOn sep r with
           | x :: xs => String c x :: xs
           | [] => [String c ""]
           end
  end.

(** The text before the first [sep], and the text after it if there is
    one. *)
Fixpoint cut (sep : ascii) (s : string) : string * option string :=
  match s with
  | EmptyString => ("", None)
  | String c r =>
      if Ascii.eqb c sep then ("", Some r)
      else let '(a, b) := cut sep r in (String c a, b)
  end.

Fixpoint stripPrefix (p s : string) : option string :=
  match p, s with
  | EmptyString, _ => Some s
  | String a p', String b s' => if Ascii.eqb a b then stripPrefix p' s' else None
  | String _ _, EmptyString => None
  end.

Fixpoint allChars (P : ascii → bool) (s : string) : bool :=
  match s with
  | EmptyString => true
  | String c r => P c && allChars P r
  end.

Definition lowerChar (c : ascii) : ascii :=
  let n := nat_of_ascii c in
  if (65 <=? n)%nat && (n <=? 90)%nat then ascii_of_nat (n + 32) else c.

Fixpoint toLower (s : string) : string :=
  match s with
  | EmptyString => EmptyString
  | String c r => String (lowerChar c) (toLower r)
  end.

(** *** regexp: patterns of space-separated named fields,
    [^(?P<a>\S+) (?P<b>\d+)$] and the like.  Any other pattern is
    rejected. *)
Inductive FieldClass := NonSpace | Digits.

Definition isSpace (c : ascii) : bool :=
  existsb (Ascii.eqb c) [" "%char; "009"%char; "010"%char; "012"%char; "013"%char].

Definition isDigit (c : ascii) : bool := bool_decide (is_Some (digit c)).

Definition isWord (c : ascii) : bool :=
  let n := nat_of_ascii c in
  isDigit c || ((65 <=? n)%nat && (n <=? 90)%nat)
  || ((97 <=? n)%nat && (n <=? 122)%nat) || Ascii.eqb c "_".

Definition inClass (cls : FieldClass) (field : string) : bool :=
  negb (String.eqb field "") &&
  match cls with
  | NonSpace => allChars (λ c, negb (isSpace c)) field
  | Digits => allChars isDigit field
  end.

Definition parseGroup (last : bool) (tok : string) : option (string * FieldClass) :=
  match stripPrefix "(?P<" tok with
  | None => None
  | Some rest =>
      match cut ">" rest with
      | (name, Some cls) =>
          if negb (String.eqb name "") && allChars isWord name then
            if String.eqb cls (if last then "\S+)$" else "\S+)") then Some (name, NonSpace)
            else if String.eqb cls (if last then "\d+)$" else "\d+)") then Some (name, Digits)
            else None
          else None
      | (_, None) => None
      end
  end.

Fixpoint parseGroups (toks : list string) : option (list (string * FieldClass)) :=
  match toks with
  | [] => Some []
  | tok :: rest =>
      match parseGroup (bool_decide (rest = [])) tok, parseGroups rest with
      | Some g, Some gs => Some (g :: gs)
      | _, _ => None
      end
  end.

Fixpoint matchFields (groups : list (string * FieldClass)) (fields : list string) : bool :=
  match groups, fields with
  | [], [] => true
  | (_, cls) :: gs, f :: fs => inClass cls f && matchFields gs fs
  | _, _ => false
  end.

Definition compileFields (pattern : string) : option Regexp :=
  match stripPrefix "^" pattern with
  | None => None
  | Some body =>
      match parseGroups (splitOn " " body) with
      | None => None
      | Some groups =>
          Some {| SubexpNames := "" :: (fst <$> groups);
                  FindStringSubmatch line :=
                    let fields := splitOn " " line in
                    if matchFields groups fields then Some (line :: fields)
                    else None |}
      end
  end.

(** *** net/url: [path?k=v&k=v] without escapes or fragment; the values
    of a repeated key are collected under its first occurrence. *)
Fixpoint addValue (k v : string) (q : list (string * list string))
  : list (string * list string) :=
  match q with
  | [] => [(k, [v])]
  | (k', vs) :: rest =>
      if String.eqb k k' then (k', (vs ++ [v])%list) :: rest
      else (k', vs) :: addValue k v rest
  end.

Definition plainChar (c : ascii) : bool :=
  let n := nat_of_ascii c in
  (33 <=? n)%nat && (n <=? 126)%nat &&
  negb (existsb (Ascii.eqb c) ["%"%char; "+"%char; "#"%char; ";"%char]).

Definition queryOf (uri : string) : option (list (string * list string)) :=
  if allChars plainChar uri then
    match cut "?" uri with
    | (_, None) => Some []
    | (_, Some raw) =>
        Some (foldl (λ q pair,
                       if String.eqb pair "" then q
                       else let '(k, v) := cut "=" pair in
                            addValue k (default "" v) q)
                    [] (splitOn "&" raw))
    end
  else None.

(** *** strconv.ParseFloat: the special values only, [NaN] and the
    infinities, in any casing. *)
Definition parseSpecialFloat (s : string) : option float :=
  let l := toLower s in
  if String.eqb l "nan" then Some nan
  else if existsb (String.eqb l) ["inf"; "+inf"; "infinity"; "+infinity"] then Some infinity
  else if existsb (String.eqb l) ["-inf"; "-infinity"] then Some neg_infinity
  else None.

(** *** encoding/json: events of integers, booleans and plain strings,
    keys in sorted order. *)
Definition jsonString (s : string) : option string :=
  if allChars (λ c, plainChar c && negb (existsb (Ascii.eqb c)
                 ["\"%char; "<"%char; ">"%char; "&"%char; "034"%char])) s
  then Some (String "034" s +:+ String "034" "")
  else None.

Definition jsonValue (v : Value) : option string :=
  match v with
  | VInt n => Some (pretty n)
  | VBool b => Some (if b then "true" else "false")
  | VString s => jsonString s
  | VTime _ | VFloat _ => None
  end.

Definition keyLe (a b : string * Value) : Prop := String.leb a.1 b.1 = true.
#[export] Instance keyLe_dec a b : Decision (keyLe a b).
Proof. unfold keyLe. apply _. Defined.

Fixpoint jsonFields (kvs : list (string * Value)) : option (list string) :=
  match kvs with
  | [] => Some []
  | (k, v) :: rest =>
      match jsonString k, jsonValue v, jsonFields rest with
      | Some k', Some v', Some fs => Some ((k' +:+ ":" +:+ v') :: fs)
      | _, _, _ => None
      end
  end.

Fixpoint joinWith (sep : string) (l : list string) : string :=
  match l with
  | [] => ""
  | [x] => x
  | x :: rest => x +:+ sep +:+ joinWith sep rest
  end.

Definition marshalEvent (obj : Event) : option string :=
  match jsonFields (merge_sort keyLe (map_to_list obj)) with
  | Some fs => Some ("{" +:+ joinWith "," fs +:+ "}")
  | None => None
  end.

(** The instance.  For package time it is the parser that rejects every
    text: the examples configure no time pattern, and none of their texts
    is a timestamp in a fallback layout. *)
#[export] Instance lib : GoLib := {|
  time_Parse _ _ := None;
  strconv_ParseFloat := parseSpecialFloat;
  url_Query := queryOf;
  regexp_Compile := compileFields;
  json_Marshal := marshalEvent
|}.

Definition accessLog :=
  "^(?P<ip>\S+) (?P<method>\S+) (?P<uri>\S+) (?P<status>\d+)$".

Definition newWorker (settings : gmap string Setting) : LogParser :=
  {| Config := viperOf settings; InputFile := "access.log"; regex := None |}.

End Env.


(** ** The vocabulary of the properties *)

(** [underscored n k] is [k] with [n] underscores in front. *)
Definition underscored (n : nat) (k : string) : string :=
  Nat.iter n (String "_") k.

(** The pattern [Init] compiles. *)
Definition patternOf (worker : LogParser) : string :=
  let pattern := GetString (Config worker) configParsePattern in
  if String.eqb pattern "" then DefaultParseLogPattern else pattern.

(** Every key of the event passes [shouldIgnore]. *)
Definition unignored (worker : LogParser) (v : Event) : Prop :=
  ∀ k : string, is_Some (v !! k) → shouldIgnore worker k = false.

(** The fixed fallback list of timestamp formats, in the order of the
    specification. *)
Definition fallbackLayouts : list string :=
  ["02/Jan/2006:15:04:05 -0700"; ANSIC; UnixDate; RubyDate; RFC822; RFC822Z;
   RFC850; RFC1123; RFC1123Z; RFC3339; RFC3339Nano].

(** First success wins. *)
Definition firstSuccess {A B : Type} (f : A → option B) (l : list A) : option B :=
  head (omap f l).

Section Inference.
Context `{GoLib}.

(** The type inferencer as the specification words it: steps 3 to 6,
    integer, boolean, float (a NaN becomes the float zero), else the
    text unchanged. *)
Definition inferScalar (raw : string) : Value :=
  match ParseInt raw with
  | Some n => VInt n
  | None =>
      match ParseBool raw with
      | Some b => VBool b
      | None =>
          match strconv_ParseFloat raw with
          | Some f => VFloat (if IsNaN f then 0%float else f)
          | None => VString raw
          end
      end
  end.

(** Steps 1 and 2, the configured formats and then the fallback ones,
    before the scalar steps. *)
Definition infer (raw : string) (timeFormats : list string) : Value :=
  match firstSuccess (λ layout, time_Parse layout raw)
                     (timeFormats ++ fallbackLayouts)%list with
  | Some t => VTime t
  | None => inferScalar raw
  end.

(** No time format, configured or fallback, parses the text. *)
Definition noTimestamp (ts : string) (config : Viper) : Prop :=
  ∀ layout : string,
    layout ∈ (GetStringSlice config configParseTimePatterns ++ fallbackLayouts)%list →
    time_Parse layout ts = None.

End Inference.

(** The worker's file, if it has one, is closed. *)
Definition deadHandle (w : FileWorker) (world : World) : Prop :=
  ∀ h f, out w = Some h → files world !! h = Some f → fclosed f = true.

(** The worker holds an open file on the path it remembers, opened for
    appending. *)
Definition live (w : FileWorker) (world : World) : Prop :=
  ∃ h f, out w = Some h ∧ files world !! h = Some f
         ∧ fpath f = outFileName w ∧ fclosed f = false
         ∧ fwritable f = true ∧ fappend f = true.

(** Every file of the first disk is on the second, with its contents as a
    prefix. *)
Definition extends (d d' : gmap string string) : Prop :=
  ∀ p c, d !! p = Some c → ∃ suffix, d' !! p = Some (c +:+ suffix).

(** Every file object was opened for appending. *)
Definition allAppend (world : World) : Prop :=
  ∀ h f, files world !! h = Some f → fappend f = true.

(** A world grows into another: files opened for appending stay so, and
    the disk is extended. *)
Definition grows (world world' : World) : Prop :=
  allAppend world → allAppend world' ∧ extends (disk world) (disk world').

(** The regexp keeps the promise of package regexp: a match has one
    submatch per name. *)
Definition wellFormed (re : Regexp) : Prop :=
  ∀ line submatches,
    FindStringSubmatch re line = Some submatches →
    length submatches = length (SubexpNames re).

Section Lines.
Context `{GoLib}.

(** The objects that marshal, one per line. *)
Fixpoint jsonLines (objs : list Event) : string :=
  match objs with
  | [] => ""
  | obj :: rest =>
      match json_Marshal obj with
      | Some line => line +:+ newline +:+ jsonLines rest
      | None => jsonLines rest
      end
  end.

(** The event of a line, when the line parses. *)
Definition parsed (worker : LogParser) (s : string) : option Event :=
  match ParseEvents worker s with
  | Ok v => Some v
  | _ => None
  end.

End Lines.

(** ** Workers, lines and worlds for the examples *)

Module Examples.
Import Env.

(** A worker whose pattern is the access-log pattern, and which ignores
    the fields [method] and [lang]. *)
Definition accessWorker : LogParser :=
  Init (newWorker {[ configParsePattern := SString accessLog;
                     configParseKeysToIgnore := SStrings ["method"; "lang"] ]}).

Definition accessLine := "10.0.0.1 GET /search?q=5&lang=en 200".

Definition accessEvent : Event :=
  <["ip" := VString "10.0.0.1"]>
    (<["uri" := VString "/search?q=5&lang=en"]>
       (<["q" := VInt 5]> (<["status" := VInt 200]> ∅))).

(** A worker whose pattern puts the uri before a group named [q]. *)
Definition uriFirstWorker : LogParser :=
  Init (newWorker {[ configParsePattern := SString "^(?P<uri>\S+) (?P<q>\S+)$" ]}).

(** A worker whose pattern does not compile. *)
Definition brokenWorker : LogParser :=
  newWorker {[ configParsePattern := SString "(" ]}.

Definition plain : Viper := viperOf ∅.


(** A configuration that sets [tail.from_beginning], and one that sets
    [tail.reopen]. *)
Definition fromBeginningWorker : LogParser :=
  newWorker {[ "tail.from_beginning" := SBool true ]}.
Definition reopenWorker : LogParser :=
  newWorker {[ "tail.reopen" := SBool true ]}.

(** A sink that appends to [a.jsonl] through the file object 0, in a
    world where [/ro/b.jsonl] cannot be opened, and the configuration
    after [file.output] is set to that path. *)
Definition sinkWorld : World := {|
  disk := {[ "a.jsonl" := "{}" +:+ newline ]};
  files := [ {| fpath := "a.jsonl"; fclosed := false; fappend := true;
                fwritable := true; fpos := 3 |} ];
  denied := {[ "/ro/b.jsonl" ]};
  logs := []
|}.
Definition sinkWorker : FileWorker :=
  {| outFileName := "a.jsonl"; out := Some 0%nat |}.
Definition deniedOutput : Viper := viperOf {[ "file.output" := SString "/ro/b.jsonl" ]}.
Definition freshOutput : Viper := viperOf {[ "file.output" := SString "c.jsonl" ]}.

Definition statusEvent : Event := {[ "status" := VInt 200 ]}.
Definition statusLine : string :=
  Eval vm_compute in default "" (marshalEvent statusEvent).

End Examples.

(** An instance of [TailLib]: [TrimSpace] on ASCII text, and a tail that
    delivers three lines of [access.log] and fails on any other file. *)
Module TailEnv.
Import Env.

Fixpoint trimLeft (s : string) : string :=
  match s with
  | EmptyString => EmptyString
  | String c r => if isSpace c || Ascii.eqb c "011" then trimLeft r else s
  end.

Fixpoint trimRight (s : string) : string :=
  match s with
  | EmptyString => EmptyString
  | String c r =>
      match trimRight r with
      | EmptyString =>
          if isSpace c || Ascii.eqb c "011" then EmptyString else String c EmptyString
      | r' => String c r'
      end
  end.

Definition trimSpace (s : string) : string := trimRight (trimLeft s).

Definition accessLines : list string :=
  ["10.0.0.1 GET /search?q=5 200 ";
   "not an access line";
   "  10.0.0.2 POST /login 302"].

#[export] Instance tail : TailLib := {|
  tail_TailFile file _ := if String.eqb file "access.log" then Some accessLines else None;
  strings_TrimSpace := trimSpace
|}.

End TailEnv.

(** More workers and configurations for the examples. *)
Module MoreExamples.
Import Env Examples.

Definition accessRegexp : Regexp :=
  default {| SubexpNames := []; FindStringSubmatch := λ _, None |}
          (compileFields accessLog).

(** A worker with the access-log pattern, before [Init]. *)
Definition tailWorker : LogParser :=
  newWorker {[ configParsePattern := SString accessLog ]}.

(** A pattern without a uri group, and a worker that ignores [status]. *)
Definition ipStatus := "^(?P<ip>\S+) (?P<status>\d+)$".
Definition ipStatusRegexp : Regexp :=
  default {| SubexpNames := []; FindStringSubmatch := λ _, None |}
          (compileFields ipStatus).
Definition ipStatusWorker : LogParser :=
  Init (newWorker {[ configParsePattern := SString ipStatus;
                     configParseKeysToIgnore := SStrings ["status"] ]}).
Definition ipEvent : Event := {[ "ip" := VString "10.0.0.1" ]}.

(** The configuration that names the path the sink of the examples has
    open, and a worker that has opened nothing yet. *)
Definition originalOutput : Viper := viperOf {[ "file.output" := SString "a.jsonl" ]}.
Definition newSink : FileWorker := {| outFileName := ""; out := None |}.

End MoreExamples.

(** * Properties *)

(** ** The Key Namer *)

Lemma underscored_shift (n : nat) (k : string) :
  underscored n ("_" +:+ k) = underscored (S n) k.
Proof.
  change ("_" +:+ k) with (String "_" k).
  unfold underscored. by rewrite Nat.iter_succ_r.
Qed.

(** The recursion equation of the source. *)
Lemma newKeyName_eq (k : string) (m : Event) :
  newKeyName k m =
  match m !! k with
  | Some _ => newKeyName ("_" +:+ k) m
  | None => k
  end.
Proof.
  rewrite newKeyName_equation_1. unfold newKeyName_unfold_clause_1.
  destruct (decide (is_Some (m !! k))) as [[x Hx] | Hn].
  - by rewrite Hx.
  - destruct (m !! k) eqn:E; [exfalso; eauto | done].
Qed.

Lemma newKeyName_fresh (k : string) (m : Event) :
  m !! newKeyName k m = None.
Proof.
  funelim (newKeyName k m).
  - done.
  - destruct (m !! k) eqn:E; [exfalso; eauto | done].
Qed.

(** C8. For every candidate name and every event, [newKeyName] returns
    (the function is total, so the recursion of the source ends) the
    candidate with [n] underscores in front, for the least [n] that makes
    it a name that is not a key of the event: the result is not a key,
    and with any smaller number of underscores it is one. *)
Theorem newKeyName_minimal_underscores (k : string) (m : Event) :
  ∃ n : nat,
    newKeyName k m = underscored n k
    ∧ m !! newKeyName k m = None
    ∧ ∀ j : nat, (j < n)%nat → is_Some (m !! underscored j k).
Proof.
  funelim (newKeyName k m).
  - destruct H as (n & Hname & Hfresh & Hmin).
    exists (S n). repeat split.
    + by rewrite Hname, underscored_shift.
    + done.
    + intros [| j] Hj; [done |].
      rewrite <- underscored_shift. apply Hmin. lia.
  - exists 0%nat. repeat split.
    + destruct (m !! k) eqn:E; [exfalso; eauto | done].
    + intros j Hj. lia.
Qed.

(** ** The type inferencer *)

Lemma ParseBool_forms (s : string) (b : bool) :
  ParseBool s = Some b ↔
  (b = true ∧ s ∈ ["1"; "t"; "T"; "TRUE"; "true"; "True"])
  ∨ (b = false ∧ s ∈ ["0"; "f"; "F"; "FALSE"; "false"; "False"]).
Proof.
  unfold ParseBool. cbn [existsb]. rewrite !elem_of_cons, !elem_of_nil.
  repeat match goal with
         | |- context [String.eqb s ?c] =>
             destruct (String.eqb_spec s c) as [-> | ?]
         end;
    simpl; split; intros Hb; destruct b; naive_solver.
Qed.

Section InferenceProperties.
Context `{GoLib}.

Lemma tryTimePatterns_firstSuccess (timePatterns : list string) (ts : string) :
  tryTimePatterns timePatterns ts =
  firstSuccess (λ layout, time_Parse layout ts) timePatterns.
Proof.
  unfold firstSuccess.
  induction timePatterns as [| p rest IH]; simpl; [done |].
  destruct (time_Parse p ts); [done | apply IH].
Qed.

Lemma firstSuccess_app {A B : Type} (f : A → option B) (l1 l2 : list A) :
  firstSuccess f (l1 ++ l2)%list =
  match firstSuccess f l1 with
  | Some b => Some b
  | None => firstSuccess f l2
  end.
Proof.
  unfold firstSuccess.
  induction l1 as [| a l1 IH]; simpl; [by destruct (head (omap f l2)) |].
  destruct (f a); [done | apply IH].
Qed.

Lemma tryTimePatterns_none (timePatterns : list string) (ts : string) :
  (∀ layout, layout ∈ timePatterns → time_Parse layout ts = None) →
  tryTimePatterns timePatterns ts = None.
Proof.
  induction timePatterns as [| p rest IH]; intros Hall; simpl; [done |].
  rewrite (Hall p) by apply list_elem_of_here.
  apply IH. intros layout Hin. apply Hall. by apply list_elem_of_further.
Qed.

(** Past the timestamp steps [parseString] is the scalar chain. *)
Lemma parseString_noTimestamp (ts : string) (config : Viper) :
  noTimestamp ts config → parseString ts config = inferScalar ts.
Proof.
  intros Hno. unfold parseString.
  rewrite tryTimePatterns_none
    by (intros layout Hin; apply Hno, elem_of_app; by left).
  repeat match goal with
         | |- context [time_Parse ?layout ts] =>
             rewrite (Hno layout)
               by (apply elem_of_app; right; unfold fallbackLayouts;
                   repeat constructor)
         end.
  unfold inferScalar.
  destruct (ParseInt ts); [done |].
  destruct (ParseBool ts); [done |].
  destruct (strconv_ParseFloat ts) as [pf |]; [| done].
  by destruct (IsNaN pf).
Qed.

(** C6. [parseString] is a function of the text and the configured time
    formats (so it is deterministic and total), and its value is the one
    the documented precedence gives: the first configured time format
    that parses, else the first fallback format that parses, else a
    signed 64-bit integer, else a boolean, else a 64-bit float, else the
    text unchanged; the value is of exactly one of the five kinds. *)
Theorem parseString_follows_precedence (ts : string) (config : Viper) :
  parseString ts config = infer ts (GetStringSlice config configParseTimePatterns)
  ∧ ((∃ t, parseString ts config = VTime t)
     ∨ (∃ n, parseString ts config = VInt n ∧ ParseInt ts = Some n)
     ∨ (∃ b, parseString ts config = VBool b ∧ ParseInt ts = None
             ∧ ParseBool ts = Some b)
     ∨ (∃ f, parseString ts config = VFloat f ∧ ParseInt ts = None
             ∧ ParseBool ts = None ∧ is_Some (strconv_ParseFloat ts))
     ∨ (parseString ts config = VString ts ∧ ParseInt ts = None
        ∧ ParseBool ts = None ∧ strconv_ParseFloat ts = None)).
Proof.
  assert (parseString ts config
          = infer ts (GetStringSlice config configParseTimePatterns)) as Href.
  { unfold parseString, infer.
    rewrite firstSuccess_app, <- tryTimePatterns_firstSuccess.
    destruct (tryTimePatterns _ ts); [done |].
    unfold firstSuccess, fallbackLayouts. simpl.
    repeat match goal with
           | |- context [time_Parse ?layout ts] =>
               destruct (time_Parse layout ts); simpl; [done |]
           end.
    unfold inferScalar.
    destruct (ParseInt ts); [done |].
    destruct (ParseBool ts); [done |].
    destruct (strconv_ParseFloat ts) as [pf |]; [| done].
    by destruct (IsNaN pf). }
  split; [exact Href |].
  rewrite Href. unfold infer.
  destruct (firstSuccess _ _) as [t |]; [left; eauto |].
  right. unfold inferScalar.
  destruct (ParseInt ts) as [n |]; [left; eauto |].
  right. destruct (ParseBool ts) as [b |]; [left; eauto |].
  right. destruct (strconv_ParseFloat ts) as [pf |]; [left | right]; eauto 10.
Qed.

(** C9. When no time format parses the text and the integer and boolean
    parses fail, a float parse that yields NaN makes [parseString] return
    the float zero, which is not NaN. *)
Theorem parseString_NaN_is_zero (ts : string) (config : Viper) (pf : float) :
  noTimestamp ts config →
  ParseInt ts = None →
  ParseBool ts = None →
  strconv_ParseFloat ts = Some pf →
  IsNaN pf = true →
  parseString ts config = VFloat 0 ∧ IsNaN 0 = false.
Proof.
  intros Hno Hint Hbool Hfloat Hnan.
  rewrite parseString_noTimestamp by done.
  unfold inferScalar. rewrite Hint, Hbool, Hfloat, Hnan.
  split; reflexivity.
Qed.

(** C10, as amended. For a text that reaches the boolean step (no time
    format parses it and the integer parse fails), [parseString] returns
    a boolean exactly when the text is one of the ten forms t, T, TRUE,
    true, True, f, F, FALSE, false, False, and the boolean is the one the
    form spells.  No other casing is a boolean. *)
Theorem parseString_boolean_forms (ts : string) (config : Viper) (b : bool) :
  noTimestamp ts config →
  ParseInt ts = None →
  parseString ts config = VBool b ↔
  (b = true ∧ ts ∈ ["t"; "T"; "TRUE"; "true"; "True"])
  ∨ (b = false ∧ ts ∈ ["f"; "F"; "FALSE"; "false"; "False"]).
Proof.
  intros Hno Hint.
  rewrite parseString_noTimestamp by done.
  unfold inferScalar. rewrite Hint.
  assert (ts ≠ "1" ∧ ts ≠ "0") as [H1 H0].
  { split; intros ->; vm_compute in Hint; discriminate. }
  transitivity (ParseBool ts = Some b).
  - destruct (ParseBool ts) as [b' |]; [split; congruence |].
    destruct (strconv_ParseFloat ts); split; discriminate.
  - rewrite ParseBool_forms. rewrite !elem_of_cons. tauto.
Qed.

End InferenceProperties.

(** ** The line parser *)

Lemma sliceContains_elem_of (l : list string) (a : string) :
  sliceContains l a = true ↔ a ∈ l.
Proof.
  induction l as [| b l IH]; simpl.
  - rewrite elem_of_nil. split; [discriminate | done].
  - rewrite elem_of_cons.
    destruct (String.eqb_spec b a) as [-> | Hne]; [tauto |].
    rewrite IH. naive_solver.
Qed.

Lemma shouldIgnore_listed (worker : LogParser) (key : string) :
  key ∈ GetStringSlice (Config worker) configParseKeysToIgnore →
  shouldIgnore worker key = true.
Proof.
  intros Hin. unfold shouldIgnore.
  apply sliceContains_elem_of in Hin. rewrite Hin. apply orb_true_r.
Qed.

Lemma unignored_insert (worker : LogParser) (v : Event) (k : string) (x : Value) :
  shouldIgnore worker k = false → unignored worker v →
  unignored worker (<[k := x]> v).
Proof.
  intros Hk Hv k' Hsome.
  destruct (decide (k = k')) as [<- | Hne]; [done |].
  rewrite lookup_insert_ne in Hsome by done. by apply Hv.
Qed.

Section ParserProperties.
Context `{GoLib}.

(** URI expansion writes under fresh names only: what is in the event
    stays. *)
Lemma ParseURI_entry_keeps (worker : LogParser) (v : Event)
    (entry : string * list string) (key : string) (x : Value) :
  v !! key = Some x → ParseURI_entry worker v entry !! key = Some x.
Proof.
  intros Hkey. destruct entry as [k [| kv0 kvs]]; simpl; [done |].
  destruct (shouldIgnore worker (newKeyName k v)); simpl; [done |].
  rewrite lookup_insert_ne; [done |].
  intros Heq. pose proof (newKeyName_fresh k v) as Hfresh.
  rewrite Heq in Hfresh. congruence.
Qed.

Lemma ParseURI_entry_unignored (worker : LogParser) (v : Event)
    (entry : string * list string) :
  unignored worker v → unignored worker (ParseURI_entry worker v entry).
Proof.
  intros Hv. destruct entry as [k [| kv0 kvs]]; simpl; [done |].
  destruct (shouldIgnore worker (newKeyName k v)) eqn:Hig; simpl; [done |].
  by apply unignored_insert.
Qed.


Lemma ParseURI_unignored (worker : LogParser) (uri : string) (v : Event) :
  unignored worker v → unignored worker (ParseURI worker uri v).
Proof.
  unfold ParseURI. destruct (negb (String.eqb uri "")); [| done].
  destruct (url_Query uri) as [q |]; [| done].
  revert v. induction q as [| entry q IH]; intros v Hv; simpl; [done |].
  by apply IH, ParseURI_entry_unignored.
Qed.

Lemma ParseEvents_loop_unignored (worker : LogParser) (names submatches : list string)
    (i : nat) (v v' : Event) :
  unignored worker v →
  ParseEvents_loop worker names i submatches v = Ok v' →
  unignored worker v'.
Proof.
  revert i v. induction submatches as [| submatch rest IH]; intros i v Hv; simpl.
  - by intros [= <-].
  - destruct (names !! i) as [name |]; [| discriminate].
    apply IH.
    assert (unignored worker
              (if negb (shouldIgnore worker name)
               then <[name := parseString submatch (Config worker)]> v else v)) as Hv1.
    { destruct (shouldIgnore worker name) eqn:Hig; simpl; [done |].
      by apply unignored_insert. }
    destruct (String.eqb name "uri"); [by apply ParseURI_unignored | done].
Qed.

(** The loop returns when every submatch has a name. *)
Lemma ParseEvents_loop_returns (worker : LogParser) (names submatches : list string)
    (i : nat) (v : Event) :
  (i + length submatches ≤ length names)%nat →
  ∃ v', ParseEvents_loop worker names i submatches v = Ok v'.
Proof.
  revert i v. induction submatches as [| submatch rest IH]; intros i v Hlen; simpl.
  - eauto.
  - simpl in Hlen.
    destruct (lookup_lt_is_Some_2 names i) as [name Hname]; [lia |].
    rewrite Hname. apply IH. lia.
Qed.



(** C7. In every event [ParseEvents] returns, a name listed in
    [parse.keys_to_ignore] is the key of no field, be it the name of a
    capture group or of a query parameter of the uri. *)
Theorem ParseEvents_drops_ignored_keys (worker : LogParser) (line : string)
    (v : Event) (key : string) :
  ParseEvents worker line = Ok v →
  key ∈ GetStringSlice (Config worker) configParseKeysToIgnore →
  v !! key = None.
Proof.
  intros Hparse Hin. unfold ParseEvents in Hparse.
  destruct (regex worker) as [re |]; [| discriminate].
  destruct (FindStringSubmatch re line) as [submatches |]; [| discriminate].
  apply ParseEvents_loop_unignored in Hparse.
  - destruct (v !! key) eqn:Hkey; [| done].
    apply shouldIgnore_listed in Hin.
    rewrite Hparse in Hin by eauto. discriminate.
  - intros k Hk. rewrite lookup_empty in Hk. by destruct Hk.
Qed.


(** C1, what the code does. When the pattern does not compile, [Init]
    leaves the regex nil, and [ParseEvents] then dereferences it: the call
    panics on every line and returns no error. *)
Theorem ParseEvents_panics_after_failed_Init (worker : LogParser) (line : string) :
  regex worker = None →
  regexp_Compile (patternOf worker) = None →
  regex (Init worker) = None
  ∧ ParseEvents (Init worker) line
    = Panic "invalid memory address or nil pointer dereference".
Proof.
  intros Hnil Hcompile. unfold patternOf in Hcompile.
  assert (Init worker = worker) as -> by (unfold Init; by rewrite Hcompile).
  split; [done |]. unfold ParseEvents. by rewrite Hnil.
Qed.

End ParserProperties.

(** ** The tail configuration *)

(** C2, what the code does. [convertConfig] reads the key
    [tail.from_beginng]: with [tail.from_beginning] set and true, and the
    misspelt key absent, the tail still starts at the end of the file. *)
Theorem convertConfig_ignores_from_beginning (worker : LogParser) :
  GetBool (Config worker) "tail.from_beginning" = true →
  GetBool (Config worker) "tail.from_beginng" = false →
  Location (convertConfig worker) = Some {| Offset := 0; Whence := SEEK_END |}.
Proof.
  intros _ Htypo. unfold convertConfig. simpl. by rewrite Htypo.
Qed.

(** C3, what the code does. [convertConfig] tests [tail.reopen] and then
    reads [time.reopen]: with [tail.reopen] set and true, and
    [time.reopen] absent, the reopen flag is false. *)
Theorem convertConfig_reads_time_reopen (worker : LogParser) :
  IsSet (Config worker) "tail.reopen" = true →
  GetBool (Config worker) "tail.reopen" = true →
  GetBool (Config worker) "time.reopen" = false →
  ReOpen (convertConfig worker) = false.
Proof.
  intros Hset _ Htime. unfold convertConfig, configTailReopen. simpl.
  by rewrite Hset, Htime.
Qed.

(** ** The sink *)

(** A nil or closed file takes nothing: the world stays as it is. *)
Lemma WriteString_dead (o : option nat) (s : string) (world : World) :
  (∀ h f, o = Some h → files world !! h = Some f → fclosed f = true) →
  (WriteString o s world).2 = world.
Proof.
  intros Hdead. unfold WriteString.
  destruct o as [h |]; [| done].
  destruct (files world !! h) as [f |] eqn:Hf; [| done].
  by rewrite (Hdead h f).
Qed.

(** A write through a file open for appending extends the file on disk. *)
Lemma WriteString_append (h : nat) (f : File) (s : string) (world : World) :
  files world !! h = Some f →
  fclosed f = false → fwritable f = true → fappend f = true →
  (WriteString (Some h) s world).2 =
  {| disk := <[fpath f := default "" (disk world !! fpath f) +:+ s]> (disk world);
     files := <[h := {| fpath := fpath f; fclosed := false; fappend := true;
                        fwritable := true;
                        fpos := String.length
                                  (default "" (disk world !! fpath f) +:+ s) |}]>
                (files world);
     denied := denied world;
     logs := logs world |}.
Proof.
  intros Hf Hopen Hwr Happ. unfold WriteString.
  by rewrite Hf, Hopen, Hwr, Happ.
Qed.

(** Closing the previous file, if there is one, touches nothing but that
    file, and leaves it closed. *)
Lemma close_previous (o : option nat) (world : World) :
  let world1 := (match o with Some h => Close h | None => mret None end world).2 in
  disk world1 = disk world ∧ denied world1 = denied world
  ∧ logs world1 = logs world
  ∧ length (files world1) = length (files world)
  ∧ (∀ h f, o = Some h → files world1 !! h = Some f → fclosed f = true)
  ∧ (∀ h f, o = Some h → files world !! h = Some f →
       ∃ f', files world1 !! h = Some f' ∧ fclosed f' = true ∧ fpath f' = fpath f).
Proof.
  destruct o as [h |]; simpl; [| by repeat split].
  unfold Close. destruct (files world !! h) as [f |] eqn:Hf; simpl.
  - destruct (fclosed f) eqn:Hc; simpl.
    + repeat split; try done.
      * intros h' f' [= <-] Hf'. congruence.
      * intros h' f' [= <-] Hf'. exists f. split; [done |]. split; congruence.
    + assert (h < length (files world))%nat as Hlt by (by eapply lookup_lt_Some).
      repeat split; try done.
      * apply length_insert.
      * intros h' f' [= <-]. rewrite list_lookup_insert_eq by done.
        by intros [= <-].
      * intros h' f' [= <-] Hf'. rewrite list_lookup_insert_eq by done.
        eexists. split; [done |]. simpl. split; congruence.
  - repeat split; try done; intros h' f' [= <-] Hf'; congruence.
Qed.

Section SinkProperties.
Context `{GoLib}.


(** The loop goes on with the next message after a turn that says so. *)
Lemma Work_continues (viper : Viper) (w w' : FileWorker) (msg : Message)
    (rest : list (Viper * Message)) (world world' : World) :
  Work_step viper w msg world = ((true, w'), world') →
  Work w ((viper, msg) :: rest) world = Work w' rest world'.
Proof.
  intros Hstep. simpl. unfold mbind, M_bind. by rewrite Hstep.
Qed.

End SinkProperties.

(** ** The properties on the concrete environment *)

Module Witnesses.
Import Env Examples.

Lemma lib_noTimestamp (ts : string) (config : Viper) : noTimestamp ts config.
Proof. intros layout _. reflexivity. Qed.

(** C9 on the text NaN. *)
Lemma parseString_NaN_is_zero_witness :
  parseString "NaN" plain = VFloat 0 ∧ IsNaN 0 = false.
Proof.
  apply (parseString_NaN_is_zero (H := Env.lib) "NaN" plain nan).
  - apply lib_noTimestamp.
  - reflexivity.
  - reflexivity.
  - reflexivity.
  - reflexivity.
Defined.

(** C10: the mixed casing tRuE reaches the boolean step and comes out as
    text. *)
Lemma parseString_mixed_case_is_text :
  Env.toLower "tRuE" = "true"
  ∧ noTimestamp "tRuE" plain
  ∧ ParseInt "tRuE" = None
  ∧ parseString "tRuE" plain = VString "tRuE".
Proof.
  split; [reflexivity |]. split; [apply lib_noTimestamp |].
  split; reflexivity.
Qed.

(** C10, as amended, on the text True. *)
Lemma parseString_boolean_forms_witness :
  parseString "True" plain = VBool true ↔
  (true = true ∧ "True" ∈ ["t"; "T"; "TRUE"; "true"; "True"])
  ∨ (true = false ∧ "True" ∈ ["f"; "F"; "FALSE"; "false"; "False"]).
Proof.
  apply (parseString_boolean_forms (H := Env.lib) "True" plain true).
  - apply lib_noTimestamp.
  - reflexivity.
Defined.

(** C7 on the access-log line: [lang] comes from the uri and [method]
    from a group, and neither is in the event. *)
Lemma ParseEvents_drops_ignored_keys_witness :
  ParseEvents accessWorker accessLine = Ok accessEvent
  ∧ accessEvent !! "lang" = None.
Proof.
  assert (ParseEvents accessWorker accessLine
          = Ok accessEvent) as Hparse by (vm_compute; reflexivity).
  split; [exact Hparse |].
  apply (ParseEvents_drops_ignored_keys (H := Env.lib)
           accessWorker accessLine accessEvent "lang" Hparse).
  vm_compute. repeat constructor.
Defined.



(** C1 on the pattern that is a lone opening parenthesis. *)
Lemma ParseEvents_panics_after_failed_Init_witness :
  regex (Init brokenWorker) = None
  ∧ ParseEvents (Init brokenWorker) "hello"
    = Panic "invalid memory address or nil pointer dereference".
Proof.
  apply (ParseEvents_panics_after_failed_Init (H := lib) brokenWorker "hello").
  - reflexivity.
  - vm_compute. reflexivity.
Defined.

(** C2 on a configuration that sets [tail.from_beginning] to true. *)
Lemma convertConfig_ignores_from_beginning_witness :
  GetBool (Config fromBeginningWorker) "tail.from_beginning" = true
  ∧ Location (convertConfig fromBeginningWorker)
    = Some {| Offset := 0; Whence := SEEK_END |}.
Proof.
  split; [vm_compute; reflexivity |].
  apply (convertConfig_ignores_from_beginning fromBeginningWorker).
  - vm_compute. reflexivity.
  - vm_compute. reflexivity.
Defined.

(** C3 on a configuration that sets [tail.reopen] to true. *)
Lemma convertConfig_reads_time_reopen_witness :
  GetBool (Config reopenWorker) "tail.reopen" = true
  ∧ ReOpen (convertConfig reopenWorker) = false.
Proof.
  split; [vm_compute; reflexivity |].
  apply (convertConfig_reads_time_reopen reopenWorker).
  - vm_compute. reflexivity.
  - vm_compute. reflexivity.
  - vm_compute. reflexivity.
Defined.


(** The same object after the configuration names a path that can be
    opened: the file is created and holds the object and a line feed. *)
Example Work_step_creates_output :
  disk (Work_step freshOutput sinkWorker (WorkMessage statusEvent) sinkWorld).2
  = <["c.jsonl" := statusLine +:+ newline]> (disk sinkWorld).
Proof. vm_compute. reflexivity. Qed.

End Witnesses.

(** * Further properties *)

(** ** Ignored keys and the shape of events *)

(** X1. [shouldIgnore] holds of exactly the empty name and the names
    listed under [parse.keys_to_ignore]. *)
Theorem shouldIgnore_empty_or_listed (worker : LogParser) (key : string) :
  shouldIgnore worker key = true ↔
  key = "" ∨ key ∈ GetStringSlice (Config worker) configParseKeysToIgnore.
Proof.
  unfold shouldIgnore. rewrite orb_true_iff, sliceContains_elem_of.
  by rewrite String.eqb_eq.
Qed.

Lemma newKeyName_underscored (k : string) (m : Event) :
  ∃ n : nat, newKeyName k m = underscored n k.
Proof.
  funelim (newKeyName k m).
  - destruct H as [n Hn]. exists (S n). by rewrite Hn, underscored_shift.
  - by exists 0%nat.
Qed.

Lemma Init_Config `{GoLib} (worker : LogParser) :
  Config (Init worker) = Config worker ∧ InputFile (Init worker) = InputFile worker.
Proof. unfold Init. by destruct (regexp_Compile _). Qed.

Section EventShape.
Context `{GoLib}.

(** X2. No event [ParseEvents] returns has a field with the empty name:
    the whole match and the unnamed groups leave no field. *)
Theorem ParseEvents_no_empty_name (worker : LogParser) (line : string) (v : Event) :
  ParseEvents worker line = Ok v → v !! "" = None.
Proof.
  intros Hparse. unfold ParseEvents in Hparse.
  destruct (regex worker) as [re |]; [| discriminate].
  destruct (FindStringSubmatch re line) as [submatches |]; [| discriminate].
  apply ParseEvents_loop_unignored in Hparse.
  - destruct (v !! "") eqn:Hkey; [| done].
    specialize (Hparse "" ltac:(eauto)). discriminate.
  - intros k Hk. rewrite lookup_empty in Hk. by destruct Hk.
Qed.

(** X3. When the pattern compiles, [ParseEvents] after [Init] never
    panics: on a line the regexp matches it returns an event, and on any
    other line the error that names the line. *)
Theorem ParseEvents_after_Init_returns (worker : LogParser) (re : Regexp)
    (line : string) :
  regexp_Compile (patternOf worker) = Some re →
  wellFormed re →
  (is_Some (FindStringSubmatch re line) ∧ ∃ v, ParseEvents (Init worker) line = Ok v)
  ∨ (FindStringSubmatch re line = None
     ∧ ParseEvents (Init worker) line
       = Err ("Line " +:+ line +:+ " did not match pattern.")).
Proof.
  intros Hcompile Hwf. unfold patternOf in Hcompile.
  unfold ParseEvents, Init. rewrite Hcompile. simpl.
  destruct (FindStringSubmatch re line) as [submatches |] eqn:Hmatch; [left | by right].
  split; [eauto |].
  apply ParseEvents_loop_returns. rewrite (Hwf line submatches Hmatch). simpl. lia.
Qed.

(** What the loop stores without a uri group: the fields it had, and the
    names from index [i] on that are not ignored. *)
Lemma ParseEvents_loop_keys (worker : LogParser) (names submatches : list string)
    (i : nat) (v v' : Event) (key : string) :
  (∀ name, name ∈ names → name ≠ "uri") →
  (i + length submatches = length names)%nat →
  ParseEvents_loop worker names i submatches v = Ok v' →
  is_Some (v' !! key) ↔
  is_Some (v !! key) ∨ (key ∈ drop i names ∧ shouldIgnore worker key = false).
Proof.
  intros Hnouri. revert i v.
  induction submatches as [| submatch rest IH]; intros i v Hlen; simpl.
  - intros [= <-]. simpl in Hlen. rewrite drop_ge by lia.
    rewrite elem_of_nil. tauto.
  - simpl in Hlen.
    destruct (names !! i) as [name |] eqn:Hname; [| discriminate].
    assert (String.eqb name "uri" = false) as ->.
    { apply String.eqb_neq, Hnouri. by eapply list_elem_of_lookup_2. }
    intros Hloop. apply IH in Hloop; [| lia]. rewrite Hloop.
    rewrite (drop_S names name i Hname), elem_of_cons.
    destruct (shouldIgnore worker name) eqn:Hig; simpl.
    + split; [tauto |]. intros [Hv | [[-> | Hin] Hk]]; [tauto | congruence | tauto].
    + destruct (decide (key = name)) as [-> | Hne].
      * rewrite lookup_insert_eq. split; [intros _ | eauto]. right. tauto.
      * rewrite lookup_insert_ne by done. tauto.
Qed.

(** X4. Without a group named uri, the fields of the event are exactly the
    group names that are not ignored. *)
Theorem ParseEvents_keys_without_uri (worker : LogParser) (re : Regexp)
    (line : string) (v : Event) (key : string) :
  regex worker = Some re →
  wellFormed re →
  (∀ name, name ∈ SubexpNames re → name ≠ "uri") →
  ParseEvents worker line = Ok v →
  is_Some (v !! key) ↔ key ∈ SubexpNames re ∧ shouldIgnore worker key = false.
Proof.
  intros Hre Hwf Hnouri Hparse. unfold ParseEvents in Hparse. rewrite Hre in Hparse.
  destruct (FindStringSubmatch re line) as [submatches |] eqn:Hmatch; [| discriminate].
  rewrite (ParseEvents_loop_keys worker (SubexpNames re) submatches 0 ∅ v key
             Hnouri (Hwf _ _ Hmatch) Hparse).
  rewrite lookup_empty. simpl. split; [| tauto].
  intros [Hnone | Hin]; [by destruct Hnone | done].
Qed.

End EventShape.

(** ** URI expansion *)

Section UriExpansion.
Context `{GoLib}.

Lemma ParseURI_entries_keep (worker : LogParser) (q : list (string * list string))
    (v : Event) (key : string) (x : Value) :
  v !! key = Some x → foldl (ParseURI_entry worker) v q !! key = Some x.
Proof.
  revert v. induction q as [| entry q IH]; intros v Hkey; simpl; [done |].
  by apply IH, ParseURI_entry_keeps.
Qed.

(** A field of the event after one entry was there before, or is the
    entry's parameter under its fresh name. *)
Lemma ParseURI_entry_keys (worker : LogParser) (v : Event)
    (entry : string * list string) (key : string) :
  is_Some (ParseURI_entry worker v entry !! key) →
  is_Some (v !! key)
  ∨ (entry.2 ≠ [] ∧ key = newKeyName entry.1 v ∧ shouldIgnore worker key = false).
Proof.
  destruct entry as [k [| kv0 kvs]]; simpl; [tauto |].
  destruct (shouldIgnore worker (newKeyName k v)) eqn:Hig; simpl; [tauto |].
  destruct (decide (key = newKeyName k v)) as [-> | Hne].
  - intros _. right. done.
  - rewrite lookup_insert_ne by done. tauto.
Qed.

(** X5. URI expansion never replaces a field: the event it is given is a
    part of the event it leaves. *)
Theorem ParseURI_never_overwrites (worker : LogParser) (uri : string) (v : Event) :
  v ⊆ ParseURI worker uri v.
Proof.
  apply map_subseteq_spec. intros key x Hkey.
  unfold ParseURI. destruct (negb (String.eqb uri "")); [| done].
  destruct (url_Query uri) as [q |]; [| done].
  by apply ParseURI_entries_keep.
Qed.

(** X6. Every field URI expansion adds is named after a query parameter
    that has a value, with underscores in front, and the name is not
    ignored. *)
Theorem ParseURI_adds_underscored_parameters (worker : LogParser) (uri : string)
    (v : Event) (key : string) :
  is_Some (ParseURI worker uri v !! key) →
  is_Some (v !! key)
  ∨ ∃ q k kvs n,
      url_Query uri = Some q ∧ (k, kvs) ∈ q ∧ kvs ≠ []
      ∧ key = underscored n k ∧ shouldIgnore worker key = false.
Proof.
  unfold ParseURI. destruct (negb (String.eqb uri "")); [| tauto].
  destruct (url_Query uri) as [q |]; [| tauto].
  intros Hkey.
  assert (is_Some (v !! key)
          ∨ ∃ k kvs n, (k, kvs) ∈ q ∧ kvs ≠ [] ∧ key = underscored n k
                       ∧ shouldIgnore worker key = false) as [Hv | Hnew].
  { revert v Hkey. induction q as [| entry q IH]; intros v Hkey; simpl in Hkey; [tauto |].
    destruct (IH _ Hkey) as [Hv | (k & kvs & n & Hin & Hne & Hname & Hig)].
    - apply ParseURI_entry_keys in Hv as [Hv | (Hne & Hname & Hig)]; [tauto |].
      right. destruct entry as [k kvs]. simpl in *.
      destruct (newKeyName_underscored k v) as [n Hn].
      exists k, kvs, n. rewrite <- Hn. repeat split; try done. apply list_elem_of_here.
    - right. exists k, kvs, n. repeat split; try done. by apply list_elem_of_further. }
  - tauto.
  - right. destruct Hnew as (k & kvs & n & Hnew). by exists q, k, kvs, n.
Qed.


(** ** Inference never yields NaN *)

(** X8. Whatever the libraries return, a float that [parseString] returns
    is not NaN. *)
Theorem parseString_never_NaN (ts : string) (config : Viper) (f : float) :
  parseString ts config = VFloat f → IsNaN f = false.
Proof.
  unfold parseString.
  destruct (tryTimePatterns _ ts); [discriminate |].
  repeat match goal with
         | |- context [time_Parse ?layout ts] =>
             destruct (time_Parse layout ts); [discriminate |]
         end.
  destruct (ParseInt ts); [discriminate |].
  destruct (ParseBool ts); [discriminate |].
  destruct (strconv_ParseFloat ts) as [pf |]; [| discriminate].
  destruct (IsNaN pf) eqn:Hnan; simpl; intros [= <-]; [reflexivity | exact Hnan].
Qed.

End UriExpansion.

(** ** Start *)

Section StartProperties.
Context `{GoLib} `{TailLib}.

Lemma ParseEvents_no_panic (worker : LogParser) (re : Regexp) (line msg : string) :
  regex worker = Some re →
  wellFormed re →
  ParseEvents worker line ≠ Panic msg.
Proof.
  intros Hre Hwf. unfold ParseEvents. rewrite Hre.
  destruct (FindStringSubmatch re line) as [submatches |] eqn:Hmatch; [| done].
  destruct (ParseEvents_loop_returns worker (SubexpNames re) submatches 0 ∅) as [v Hv].
  { rewrite (Hwf _ _ Hmatch). simpl. lia. }
  by rewrite Hv.
Qed.

Lemma Start_loop_parsed (worker : LogParser) (re : Regexp) (lines : list string) :
  regex worker = Some re →
  wellFormed re →
  Start_loop worker lines = Ok (omap (parsed worker ∘ strings_TrimSpace) lines).
Proof.
  intros Hre Hwf. induction lines as [| line rest IH]; simpl; [done |].
  rewrite IH.
  change (parsed worker (strings_TrimSpace line))
    with (match ParseEvents worker (strings_TrimSpace line) with
          | Ok v => Some v
          | _ => None
          end).
  destruct (ParseEvents worker (strings_TrimSpace line)) as [v | msg | msg] eqn:Hparse;
    [done | done |].
  by apply (ParseEvents_no_panic _ re) in Hparse.
Qed.

(** X9. When the pattern compiles and the file can be tailed, [Start]
    hands over, in the order of the lines, the event of every trimmed
    line that parses; a line that does not match is dropped and the loop
    goes on. *)
Theorem Start_sends_parsed_lines (worker : LogParser) (re : Regexp)
    (lines : list string) :
  regexp_Compile (patternOf worker) = Some re →
  wellFormed re →
  tail_TailFile (InputFile worker) (convertConfig worker) = Some lines →
  Start worker = Ok (omap (parsed (Init worker) ∘ strings_TrimSpace) lines).
Proof.
  intros Hcompile Hwf Htail. unfold Start.
  destruct (Init_Config worker) as [Hconfig Hfile].
  assert (convertConfig (Init worker) = convertConfig worker) as ->
    by (unfold convertConfig; by rewrite Hconfig).
  rewrite Hfile, Htail.
  apply (Start_loop_parsed _ re); [| done].
  unfold Init. unfold patternOf in Hcompile. by rewrite Hcompile.
Qed.

(** X10. When the pattern does not compile, [Start] still tails the file,
    and panics on the first line the tail delivers; it returns only if no
    line ever arrives. *)
Theorem Start_panics_on_first_line (worker : LogParser) (lines : list string) :
  regex worker = None →
  regexp_Compile (patternOf worker) = None →
  tail_TailFile (InputFile worker) (convertConfig worker) = Some lines →
  Start worker =
  match lines with
  | [] => Ok []
  | _ :: _ => Panic "invalid memory address or nil pointer dereference"
  end.
Proof.
  intros Hnil Hcompile Htail. unfold Start.
  assert (Init worker = worker) as ->
    by (unfold Init; unfold patternOf in Hcompile; by rewrite Hcompile).
  rewrite Htail. destruct lines as [| line rest]; simpl; [done |].
  unfold ParseEvents. by rewrite Hnil.
Qed.

End StartProperties.

(** ** The sink, further *)

Lemma append_nil_r (s : string) : s +:+ "" = s.
Proof. induction s as [| c s IH]; [done |]. change (String c (s +:+ "") = String c s). by rewrite IH. Qed.

Lemma append_assoc (a b c : string) : (a +:+ b) +:+ c = a +:+ (b +:+ c).
Proof.
  induction a as [| x a IH]; [done |].
  change (String x ((a +:+ b) +:+ c) = String x (a +:+ (b +:+ c))). by rewrite IH.
Qed.

Lemma extends_refl (d : gmap string string) : extends d d.
Proof. intros p c Hp. exists "". by rewrite append_nil_r. Qed.

Lemma extends_trans (d1 d2 d3 : gmap string string) :
  extends d1 d2 → extends d2 d3 → extends d1 d3.
Proof.
  intros H12 H23 p c Hp.
  destruct (H12 p c Hp) as [s1 Hs1]. destruct (H23 p _ Hs1) as [s2 Hs2].
  exists (s1 +:+ s2). by rewrite <- append_assoc.
Qed.

Lemma grows_refl (world : World) : grows world world.
Proof. intros Happ. split; [done | apply extends_refl]. Qed.

Lemma grows_trans (w1 w2 w3 : World) : grows w1 w2 → grows w2 w3 → grows w1 w3.
Proof.
  intros H12 H23 Happ. destruct (H12 Happ) as [Happ2 He12].
  destruct (H23 Happ2) as [Happ3 He23]. split; [done |]. by eapply extends_trans.
Qed.

Lemma logf_grows (lvl : Level) (msg : string) (world : World) :
  grows world (logf lvl msg world).2.
Proof. intros Happ. split; [done | apply extends_refl]. Qed.

Lemma Close_grows (h : nat) (world : World) : grows world (Close h world).2.
Proof.
  unfold Close. destruct (files world !! h) as [f |] eqn:Hf; [| apply grows_refl].
  destruct (fclosed f); [apply grows_refl |].
  intros Happ. split; [| apply extends_refl].
  intros h' f' Hf'. simpl in Hf'.
  apply list_lookup_insert_Some in Hf' as [(-> & <- & _) | (_ & Hf')].
  - simpl. eauto.
  - eauto.
Qed.

Lemma WriteString_grows (o : option nat) (s : string) (world : World) :
  grows world (WriteString o s world).2.
Proof.
  unfold WriteString. destruct o as [h |]; [| apply grows_refl].
  destruct (files world !! h) as [f |] eqn:Hf; [| apply grows_refl].
  destruct (fclosed f); [apply grows_refl |].
  destruct (fwritable f); [| apply grows_refl].
  intros Happ. rewrite (Happ h f Hf). simpl. split.
  - intros h' f' Hf'.
    apply list_lookup_insert_Some in Hf' as [(-> & <- & _) | (_ & Hf')].
    + simpl. eauto.
    + eauto.
  - intros p c Hp. destruct (decide (p = fpath f)) as [-> | Hne].
    + rewrite lookup_insert_eq, Hp. simpl. eauto.
    + rewrite lookup_insert_ne by done. exists "". by rewrite append_nil_r.
Qed.

Lemma OpenFile_append_grows (name : string) (perm : Z) (world : World) :
  grows world (OpenFile name (Z.lor (Z.lor O_APPEND O_CREATE) O_WRONLY) perm world).2.
Proof.
  unfold OpenFile. destruct (decide (name ∈ denied world)); [apply grows_refl |].
  change (hasFlag (Z.lor (Z.lor O_APPEND O_CREATE) O_WRONLY) O_CREATE) with true.
  change (hasFlag (Z.lor (Z.lor O_APPEND O_CREATE) O_WRONLY) O_APPEND) with true.
  rewrite andb_false_r. simpl.
  intros Happ. split.
  - intros h f Hf. simpl in Hf.
    apply lookup_app_Some in Hf as [Hf | [_ Hf]]; [eauto |].
    apply list_lookup_singleton_Some in Hf as [_ <-]. done.
  - simpl. destruct (disk world !! name) eqn:Hname; [apply extends_refl |].
    intros p c Hp. exists "". rewrite append_nil_r.
    rewrite lookup_insert_ne; [done |]. congruence.
Qed.

Lemma CachedFileHandle_grows (viper : Viper) (w : FileWorker) (world : World) :
  grows world (CachedFileHandle viper w world).2.
Proof.
  unfold CachedFileHandle.
  destruct (negb (String.eqb (ConfiguredFileOutputName viper) (outFileName w)));
    [| apply grows_refl].
  unfold mbind, M_bind, mret, M_ret.
  assert (grows world
            (match out w with Some h => Close h | None => λ w0, (None, w0) end world).2)
    as Hclose by (destruct (out w); [apply Close_grows | apply grows_refl]).
  destruct (match out w with Some h => Close h | None => λ w0, (None, w0) end world)
    as [r0 world1]. simpl in Hclose.
  pose proof (OpenFile_append_grows (ConfiguredFileOutputName viper) 438 world1) as Hopen.
  destruct (OpenFile _ _ 438 world1) as [[handle | err] world2]; simpl in Hopen.
  - by eapply grows_trans.
  - pose proof (logf_grows LWarn
                  ("Unable to create output file " +:+ ConfiguredFileOutputName viper
                     +:+ " because of " +:+ err) world2) as Hlog.
    destruct (logf _ _ world2) as [u world3]. simpl in Hlog |- *.
    eapply grows_trans; [done |]. by eapply grows_trans.
Qed.

Section SinkRuns.
Context `{GoLib}.

Lemma Work_step_grows (viper : Viper) (w : FileWorker) (msg : Message) (world : World) :
  grows world (Work_step viper w msg world).2.
Proof.
  destruct msg as [obj |]; simpl; [| apply logf_grows].
  destruct (json_Marshal obj) as [line |]; [| apply logf_grows].
  unfold mbind, M_bind, mret, M_ret.
  pose proof (CachedFileHandle_grows viper w world) as Hc.
  destruct (CachedFileHandle viper w world) as [[o w'] world1]. simpl in Hc.
  pose proof (WriteString_grows o line world1) as H1.
  destruct (WriteString o line world1) as [e1 world2]. simpl in H1.
  pose proof (WriteString_grows o newline world2) as H2.
  destruct (WriteString o newline world2) as [e2 world3]. simpl in H2 |- *.
  eapply grows_trans; [done |]. by eapply grows_trans.
Qed.

(** X11. The sink only ever appends.  When every file object of the world
    was opened for appending, a run of [Work] over any messages and any
    configurations leaves every file that was on disk on disk, with its
    old contents as a prefix of the new. *)
Theorem Work_only_appends (w : FileWorker) (inbox : list (Viper * Message))
    (world : World) :
  allAppend world →
  extends (disk world) (disk (Work w inbox world).2).
Proof.
  intros Happ.
  assert (grows world (Work w inbox world).2) as Hgrows.
  { clear Happ. revert w world.
    induction inbox as [| [viper msg] rest IH]; intros w world; simpl;
      [apply grows_refl |].
    unfold mbind, M_bind, mret, M_ret.
    pose proof (Work_step_grows viper w msg world) as Hstep.
    destruct (Work_step viper w msg world) as [[continue w'] world1]. simpl in Hstep.
    destruct continue; [| done].
    eapply grows_trans; [done | apply IH]. }
  by apply Hgrows.
Qed.

(** X12. [Work] returns at the first quit message: whatever the channels
    hold after it is not looked at. *)
Theorem Work_stops_at_quit (w : FileWorker) (before after : list (Viper * Message))
    (viper : Viper) (world : World) :
  Work w (before ++ (viper, QuitMessage) :: after) world
  = Work w (before ++ [(viper, QuitMessage)]) world.
Proof.
  revert w world. induction before as [| [v msg] before IH]; intros w world; simpl.
  - reflexivity.
  - unfold mbind, M_bind.
    destruct (Work_step v w msg world) as [[continue w'] world1].
    destruct continue; [apply IH | done].
Qed.

End SinkRuns.

(** ** The file handle over several calls *)

Lemma CachedFileHandle_same (viper : Viper) (w : FileWorker) (world : World) :
  ConfiguredFileOutputName viper = outFileName w →
  CachedFileHandle viper w world = ((out w, w), world).
Proof.
  intros Hname. unfold CachedFileHandle. by rewrite Hname, String.eqb_refl.
Qed.

(** The handle [CachedFileHandle] returns is the one the worker then
    holds. *)
Lemma CachedFileHandle_returns_out (viper : Viper) (w : FileWorker) (world : World) :
  (CachedFileHandle viper w world).1.1 = out (CachedFileHandle viper w world).1.2.
Proof.
  unfold CachedFileHandle.
  destruct (negb (String.eqb (ConfiguredFileOutputName viper) (outFileName w))); [| done].
  unfold mbind, M_bind, mret, M_ret.
  destruct (match out w with Some h => Close h | None => λ w0, (None, w0) end world)
    as [r0 world1].
  destruct (OpenFile _ _ 438 world1) as [[handle | err] world2]; [done |].
  by destruct (logf _ _ world2).
Qed.

Lemma CachedFileHandle_opened (viper : Viper) (w : FileWorker) (world : World) :
  ConfiguredFileOutputName viper ≠ outFileName w →
  ConfiguredFileOutputName viper ∉ denied world →
  ∃ world',
    CachedFileHandle viper w world
    = ((Some (length (files world)),
        {| outFileName := ConfiguredFileOutputName viper;
           out := Some (length (files world)) |}), world')
    ∧ disk world' = match disk world !! ConfiguredFileOutputName viper with
                    | Some _ => disk world
                    | None => <[ConfiguredFileOutputName viper := ""]> (disk world)
                    end
    ∧ files world' !! length (files world)
      = Some {| fpath := ConfiguredFileOutputName viper; fclosed := false;
                fappend := true; fwritable := true; fpos := 0 |}
    ∧ denied world' = denied world.
Proof.
  intros Hne Hok. unfold CachedFileHandle.
  apply String.eqb_neq in Hne. rewrite Hne. cbn [negb].
  unfold mbind, M_bind, mret, M_ret.
  pose proof (close_previous (out w) world) as Hclose. cbv zeta in Hclose.
  unfold mret, M_ret in Hclose.
  destruct (match out w with Some h => Close h | None => λ w0, (None, w0) end world)
    as [r0 world1]. simpl in Hclose.
  destruct Hclose as (Hdisk & Hdenied & _ & Hlen & _ & _).
  unfold OpenFile. rewrite <- Hdenied in Hok.
  destruct (decide (ConfiguredFileOutputName viper ∈ denied world1)); [done |].
  change (hasFlag (Z.lor (Z.lor O_APPEND O_CREATE) O_WRONLY) O_CREATE) with true.
  change (hasFlag (Z.lor (Z.lor O_APPEND O_CREATE) O_WRONLY) O_APPEND) with true.
  change (hasFlag (Z.lor (Z.lor O_APPEND O_CREATE) O_WRONLY) O_WRONLY) with true.
  rewrite andb_false_r. cbn [orb out]. rewrite <- Hlen.
  eexists. split; [reflexivity |]. simpl. rewrite Hdisk.
  split; [done |]. split; [by apply list_lookup_middle | done].
Qed.

Lemma CachedFileHandle_denied (viper : Viper) (w : FileWorker) (world : World) :
  ConfiguredFileOutputName viper ≠ outFileName w →
  ConfiguredFileOutputName viper ∈ denied world →
  ∃ world',
    CachedFileHandle viper w world = ((out w, w), world')
    ∧ disk world' = disk world
    ∧ deadHandle w world'.
Proof.
  intros Hne Hdeny. unfold CachedFileHandle.
  apply String.eqb_neq in Hne. rewrite Hne. cbn [negb].
  unfold mbind, M_bind, mret, M_ret.
  pose proof (close_previous (out w) world) as Hclose. cbv zeta in Hclose.
  unfold mret, M_ret in Hclose.
  destruct (match out w with Some h => Close h | None => λ w0, (None, w0) end world)
    as [r0 world1]. simpl in Hclose.
  destruct Hclose as (Hdisk & Hdenied & _ & _ & Hdead & _).
  unfold OpenFile. rewrite <- Hdenied in Hdeny.
  destruct (decide (ConfiguredFileOutputName viper ∈ denied world1)); [| done].
  simpl. eexists. split; [reflexivity |]. split; [done |].
  intros h f Hout Hf. simpl in Hf. eauto.
Qed.

Section SinkCalls.
Context `{GoLib}.

(** A write through a closed or missing file leaves the disk and the file
    objects as they are. *)
Lemma Work_step_on_dead_handle (viper : Viper) (w : FileWorker) (obj : Event)
    (world : World) :
  deadHandle w world →
  ConfiguredFileOutputName viper = outFileName w →
  ∃ world',
    Work_step viper w (WorkMessage obj) world = ((true, w), world')
    ∧ disk world' = disk world ∧ files world' = files world.
Proof.
  intros Hdead Hname. unfold Work_step.
  destruct (json_Marshal obj) as [line |].
  - unfold mbind, M_bind, mret, M_ret.
    rewrite (CachedFileHandle_same _ _ _ Hname).
    pose proof (WriteString_dead (out w) line world Hdead) as H1.
    destruct (WriteString (out w) line world) as [e1 world1]. simpl in H1. subst world1.
    pose proof (WriteString_dead (out w) newline world Hdead) as H2.
    destruct (WriteString (out w) newline world) as [e2 world2]. simpl in H2. subst world2.
    by exists world.
  - unfold mbind, M_bind, mret, M_ret, logf. simpl. eauto.
Qed.

(** X13. [Stop] leaves the worker with a closed file, and remembers the
    path: an object that [Work] receives after it, with the configured
    path unchanged, is written nowhere. *)
Theorem FileWorker_Stop_closes_output (viper viper' : Viper) (w : FileWorker)
    (obj : Event) (world : World) :
  ConfiguredFileOutputName viper'
  = outFileName (FileWorker_Stop viper w world).1 →
  deadHandle (FileWorker_Stop viper w world).1 (FileWorker_Stop viper w world).2
  ∧ ∃ world',
      Work_step viper' (FileWorker_Stop viper w world).1 (WorkMessage obj)
                (FileWorker_Stop viper w world).2
      = ((true, (FileWorker_Stop viper w world).1), world')
      ∧ disk world' = disk (FileWorker_Stop viper w world).2.
Proof.
  intros Hname.
  assert (deadHandle (FileWorker_Stop viper w world).1
                     (FileWorker_Stop viper w world).2) as Hdead.
  { clear Hname. unfold FileWorker_Stop, mbind, M_bind, mret, M_ret.
    pose proof (CachedFileHandle_returns_out viper w world) as Hout.
    destruct (CachedFileHandle viper w world) as [[o w'] world1]. simpl in Hout.
    subst o. unfold closeFile.
    pose proof (close_previous (out w') world1) as Hclose. cbv zeta in Hclose.
    destruct (out w') as [h |] eqn:Hh.
    - destruct (Close h world1) as [r world2]. simpl in Hclose |- *.
      destruct Hclose as (_ & _ & _ & _ & Hd & _).
      intros h' f Hout' Hf. rewrite Hh in Hout'. eauto.
    - simpl. intros h' f Hout'. congruence. }
  split; [exact Hdead |].
  destruct (Work_step_on_dead_handle viper' _ obj _ Hdead Hname)
    as (world' & Hstep & Hdisk & _).
  eauto.
Qed.

(** X14. After a switch to a path that cannot be opened, a switch back to
    the old path does not reopen it: the file was closed on the way, the
    worker still remembers the old path, and both objects are lost. *)
Theorem Work_drops_after_failed_switch (viperB viperA : Viper) (w : FileWorker)
    (o1 o2 : Event) (world : World) :
  is_Some (json_Marshal o1) →
  ConfiguredFileOutputName viperB ≠ outFileName w →
  ConfiguredFileOutputName viperB ∈ denied world →
  ConfiguredFileOutputName viperA = outFileName w →
  (Work w [(viperB, WorkMessage o1); (viperA, WorkMessage o2)] world).1 = w
  ∧ disk (Work w [(viperB, WorkMessage o1); (viperA, WorkMessage o2)] world).2
    = disk world.
Proof.
  intros [line Hline] Hne Hdeny Hback.
  destruct (CachedFileHandle_denied viperB w world Hne Hdeny)
    as (world1 & Hcached & Hdisk1 & Hdead1).
  assert (Work_step viperB w (WorkMessage o1) world = ((true, w), world1)) as Hstep1.
  { unfold Work_step. rewrite Hline. unfold mbind, M_bind, mret, M_ret.
    rewrite Hcached.
    pose proof (WriteString_dead (out w) line world1 Hdead1) as H1.
    destruct (WriteString (out w) line world1) as [e1 world2]. simpl in H1. subst world2.
    pose proof (WriteString_dead (out w) newline world1 Hdead1) as H2.
    destruct (WriteString (out w) newline world1) as [e2 world3]. simpl in H2.
    by subst world3. }
  destruct (Work_step_on_dead_handle viperA w o2 world1 Hdead1 Hback)
    as (world2 & Hstep2 & Hdisk2 & _).
  rewrite (Work_continues _ _ _ _ _ _ _ Hstep1), (Work_continues _ _ _ _ _ _ _ Hstep2).
  simpl. split; [done | congruence].
Qed.

(** X15. [Init] of the sink opens the configured path when it can be
    opened: the worker then holds an open file on that path, opened for
    appending; a file that was on disk is left as it is, and a missing
    one is created empty. *)
Theorem FileWorker_Init_opens_output (viper : Viper) (w : FileWorker) (world : World) :
  ConfiguredFileOutputName viper ≠ outFileName w →
  ConfiguredFileOutputName viper ∉ denied world →
  live (FileWorker_Init viper w world).1 (FileWorker_Init viper w world).2
  ∧ outFileName (FileWorker_Init viper w world).1 = ConfiguredFileOutputName viper
  ∧ disk (FileWorker_Init viper w world).2
    = match disk world !! ConfiguredFileOutputName viper with
      | Some _ => disk world
      | None => <[ConfiguredFileOutputName viper := ""]> (disk world)
      end.
Proof.
  intros Hne Hok.
  destruct (CachedFileHandle_opened viper w world Hne Hok)
    as (world' & Hcached & Hdisk & Hfile & _).
  unfold FileWorker_Init, mbind, M_bind, mret, M_ret. rewrite Hcached. simpl.
  split; [| done].
  eexists _, _. split; [reflexivity |]. split; [exact Hfile |]. done.
Qed.

(** X16. The handle is cached: once the configured path is open, asking
    again under the same configuration opens nothing and returns the same
    file, worker and world. *)
Theorem CachedFileHandle_is_cached (viper : Viper) (w : FileWorker) (world : World) :
  ConfiguredFileOutputName viper ∉ denied world →
  CachedFileHandle viper (CachedFileHandle viper w world).1.2
                   (CachedFileHandle viper w world).2
  = CachedFileHandle viper w world.
Proof.
  intros Hok.
  destruct (decide (ConfiguredFileOutputName viper = outFileName w)) as [Hname | Hne].
  - rewrite (CachedFileHandle_same viper w world Hname). cbn [fst snd].
    apply (CachedFileHandle_same viper w world Hname).
  - destruct (CachedFileHandle_opened viper w world Hne Hok) as (world' & -> & _).
    cbn [fst snd]. by rewrite CachedFileHandle_same.
Qed.

(** One object through a live file: the file on disk grows by the line
    and a line feed, and the file stays live. *)
Lemma Work_step_live (viper : Viper) (w : FileWorker) (obj : Event) (line : string)
    (world : World) :
  live w world →
  ConfiguredFileOutputName viper = outFileName w →
  json_Marshal obj = Some line →
  ∃ world',
    Work_step viper w (WorkMessage obj) world = ((true, w), world')
    ∧ live w world'
    ∧ disk world'
      = <[outFileName w := default "" (disk world !! outFileName w)
                             +:+ line +:+ newline]> (disk world).
Proof.
  intros (h & f & Hout & Hf & Hpath & Hopen & Hwr & Happ) Hname Hline.
  unfold Work_step. rewrite Hline. unfold mbind, M_bind, mret, M_ret.
  rewrite (CachedFileHandle_same _ _ _ Hname), Hout.
  pose proof (WriteString_append h f line world Hf Hopen Hwr Happ) as H1.
  destruct (WriteString (Some h) line world) as [e1 world1]. simpl in H1. subst world1.
  match goal with
  | |- context [WriteString _ newline ?wd] => set (world1 := wd)
  end.
  assert (h < length (files world))%nat as Hlt by (by eapply lookup_lt_Some).
  assert (files world1 !! h
          = Some {| fpath := fpath f; fclosed := false; fappend := true;
                    fwritable := true;
                    fpos := String.length
                              (default "" (disk world !! fpath f) +:+ line) |}) as Hf1
    by (subst world1; simpl; by apply list_lookup_insert_eq).
  pose proof (WriteString_append h _ newline world1 Hf1 eq_refl eq_refl eq_refl) as H2.
  destruct (WriteString (Some h) newline world1) as [e2 world2]. simpl in H2. subst world2.
  eexists. split; [reflexivity |]. split.
  - exists h. eexists. split; [done |]. split.
    + simpl. apply list_lookup_insert_eq. by rewrite length_insert.
    + simpl. done.
  - simpl. rewrite lookup_insert_eq. simpl.
    rewrite insert_insert_eq, Hpath. by rewrite append_assoc.
Qed.

(** X17. Objects received under one configuration, through a live file,
    end up on disk as JSON lines in the order received: the file grows by
    one line per object that marshals, and an object that does not
    marshal leaves no trace in it. *)
Theorem Work_writes_json_lines (viper : Viper) (w : FileWorker) (objs : list Event)
    (world : World) :
  live w world →
  is_Some (disk world !! outFileName w) →
  ConfiguredFileOutputName viper = outFileName w →
  (Work w ((λ obj, (viper, WorkMessage obj)) <$> objs) world).1 = w
  ∧ disk (Work w ((λ obj, (viper, WorkMessage obj)) <$> objs) world).2
    = <[outFileName w := default "" (disk world !! outFileName w)
                           +:+ jsonLines objs]> (disk world).
Proof.
  intros Hlive Hfile Hname. revert world Hlive Hfile.
  induction objs as [| obj objs IH]; intros world Hlive [old Hold].
  - simpl. split; [done |]. rewrite Hold. simpl. rewrite append_nil_r.
    by rewrite insert_id.
  - rewrite fmap_cons. cbn [jsonLines].
    destruct (json_Marshal obj) as [line |] eqn:Hline.
    + destruct (Work_step_live viper w obj line world Hlive Hname Hline)
        as (world1 & Hstep & Hlive1 & Hdisk1).
      rewrite (Work_continues _ _ _ _ _ _ _ Hstep).
      destruct (IH world1 Hlive1) as [Hw Hdisk].
      { rewrite Hdisk1, lookup_insert_eq. eauto. }
      split; [done |]. rewrite Hdisk, Hdisk1, lookup_insert_eq, insert_insert_eq.
      rewrite Hold. simpl. by rewrite !append_assoc.
    + set (world1 := {| disk := disk world; files := files world;
                        denied := denied world;
                        logs := (logs world ++ [(LInfo, "Unable to marshal object")])%list |}).
      assert (Work_step viper w (WorkMessage obj) world = ((true, w), world1)) as Hstep
        by (unfold Work_step; by rewrite Hline).
      rewrite (Work_continues _ _ _ _ _ _ _ Hstep).
      destruct (IH world1) as [Hw Hdisk]; [done | by exists old |].
      split; [done |]. by rewrite Hdisk.
Qed.

End SinkCalls.

(** ** Integers *)

Lemma digit_range (c : ascii) (d : Z) : digit c = Some d → (0 ≤ d ≤ 9)%Z.
Proof.
  unfold digit.
  destruct ((48 <=? Z.of_nat (nat_of_ascii c))%Z && (Z.of_nat (nat_of_ascii c) <=? 57)%Z)
    eqn:Hrange; [| discriminate].
  intros [= <-]. apply andb_true_iff in Hrange as [Hlo Hhi]. lia.
Qed.

Lemma parseDigits_nonneg (s : string) (acc n : Z) :
  (0 ≤ acc)%Z → parseDigits s acc = Some n → (0 ≤ n)%Z.
Proof.
  revert acc. induction s as [| c s IH]; intros acc Hacc; simpl.
  - by intros [= <-].
  - destruct (digit c) as [d |] eqn:Hd; [| discriminate].
    apply digit_range in Hd. apply IH. lia.
Qed.

Lemma ParseInt_range (s : string) (n : Z) :
  ParseInt s = Some n → (- 2 ^ 63 ≤ n ≤ 2 ^ 63 - 1)%Z.
Proof.
  unfold ParseInt. destruct s as [| c r]; [discriminate |].
  set (body := if Ascii.eqb c "+" || Ascii.eqb c "-" then r else String c r).
  destruct (ParseUint body) as [un |] eqn:Hun; [| discriminate].
  assert (0 ≤ un)%Z as Hnonneg.
  { unfold ParseUint in Hun. destruct body; [discriminate |].
    by apply (parseDigits_nonneg _ 0 un) in Hun. }
  destruct (Ascii.eqb c "-"); simpl.
  - destruct (2 ^ 63 <? un)%Z eqn:Hcut; [discriminate |].
    intros [= <-]. apply Z.ltb_ge in Hcut. lia.
  - destruct (2 ^ 63 <=? un)%Z eqn:Hcut; [discriminate |].
    intros [= <-]. apply Z.leb_gt in Hcut. lia.
Qed.

(** X18. An integer that [parseString] returns is a signed 64-bit
    integer: a numeral too large for one is not returned as an integer. *)
Theorem parseString_integer_in_range `{GoLib} (ts : string) (config : Viper) (n : Z) :
  parseString ts config = VInt n → (- 2 ^ 63 ≤ n ≤ 2 ^ 63 - 1)%Z.
Proof.
  unfold parseString.
  destruct (tryTimePatterns _ ts); [discriminate |].
  repeat match goal with
         | |- context [time_Parse ?layout ts] =>
             destruct (time_Parse layout ts); [discriminate |]
         end.
  destruct (ParseInt ts) as [pi |] eqn:Hint.
  - intros [= <-]. by apply (ParseInt_range ts).
  - destruct (ParseBool ts); [discriminate |].
    destruct (strconv_ParseFloat ts) as [pf |]; [| discriminate].
    by destruct (negb (IsNaN pf)).
Qed.

(** ** The further properties on the concrete environment *)

Module Checks.
Import Env Examples TailEnv MoreExamples.

Lemma matchFields_length (groups : list (string * FieldClass)) (fields : list string) :
  matchFields groups fields = true → length fields = length groups.
Proof.
  revert fields. induction groups as [| [name cls] groups IH]; intros [| f fields];
    simpl; try discriminate; [done |].
  intros Hm. apply andb_true_iff in Hm as [_ Hm]. by rewrite (IH _ Hm).
Qed.

(** The regexps of the environment have one submatch per name. *)
Lemma compileFields_wellFormed (pattern : string) (re : Regexp) :
  compileFields pattern = Some re → wellFormed re.
Proof.
  unfold compileFields.
  destruct (stripPrefix "^" pattern) as [body |]; [| discriminate].
  destruct (parseGroups (splitOn " " body)) as [groups |]; [| discriminate].
  intros [= <-] line submatches. simpl.
  destruct (matchFields groups (splitOn " " line)) eqn:Hm; [| discriminate].
  intros [= <-]. simpl. rewrite length_fmap. f_equal. by apply matchFields_length.
Qed.

Lemma accessRegexp_wellFormed : wellFormed accessRegexp.
Proof. apply (compileFields_wellFormed accessLog). vm_compute. reflexivity. Qed.

Lemma ipStatusRegexp_wellFormed : wellFormed ipStatusRegexp.
Proof. apply (compileFields_wellFormed ipStatus). vm_compute. reflexivity. Qed.

Lemma sinkWorld_allAppend : allAppend sinkWorld.
Proof.
  intros [| h] f Hf; simpl in Hf; [by injection Hf as <- | discriminate].
Qed.

Lemma sinkWorker_live : live sinkWorker sinkWorld.
Proof. eexists _, _. repeat split; reflexivity. Qed.

(** X2 on the access-log line. *)
Lemma ParseEvents_no_empty_name_witness : accessEvent !! "" = None.
Proof.
  apply (ParseEvents_no_empty_name (H := lib) accessWorker accessLine accessEvent).
  vm_compute. reflexivity.
Defined.

(** X3 on the access-log line. *)
Lemma ParseEvents_after_Init_returns_witness :
  (is_Some (FindStringSubmatch accessRegexp accessLine)
   ∧ ∃ v, ParseEvents (Init tailWorker) accessLine = Ok v)
  ∨ (FindStringSubmatch accessRegexp accessLine = None
     ∧ ParseEvents (Init tailWorker) accessLine
       = Err ("Line " +:+ accessLine +:+ " did not match pattern.")).
Proof.
  apply (ParseEvents_after_Init_returns (H := lib) tailWorker accessRegexp accessLine).
  - vm_compute. reflexivity.
  - apply accessRegexp_wellFormed.
Defined.

(** X4 on a line of an address and a status, the status ignored. *)
Lemma ParseEvents_keys_without_uri_witness :
  is_Some (ipEvent !! "status") ↔
  "status" ∈ SubexpNames ipStatusRegexp ∧ shouldIgnore ipStatusWorker "status" = false.
Proof.
  apply (ParseEvents_keys_without_uri (H := lib) ipStatusWorker ipStatusRegexp
           "10.0.0.1 200" ipEvent "status").
  - vm_compute. reflexivity.
  - apply ipStatusRegexp_wellFormed.
  - change (SubexpNames ipStatusRegexp) with [""; "ip"; "status"].
    intros name Hin. rewrite !elem_of_cons, elem_of_nil in Hin.
    destruct Hin as [-> | [-> | [-> | []]]]; discriminate.
  - vm_compute. reflexivity.
Defined.

(** X6 on the parameter [q] of the uri of the examples. *)
Lemma ParseURI_adds_underscored_parameters_witness :
  is_Some (({[ "uri" := VString "/s?q=5" ]} : Event) !! "q")
  ∨ ∃ q k kvs n,
      url_Query "/s?q=5" = Some q ∧ (k, kvs) ∈ q ∧ kvs ≠ []
      ∧ "q" = underscored n k ∧ shouldIgnore uriFirstWorker "q" = false.
Proof.
  apply (ParseURI_adds_underscored_parameters (H := lib) uriFirstWorker "/s?q=5"
           {[ "uri" := VString "/s?q=5" ]} "q").
  vm_compute. eauto.
Defined.


(** X8 on the text Inf. *)
Lemma parseString_never_NaN_witness : IsNaN infinity = false.
Proof.
  apply (parseString_never_NaN (H := lib) "Inf" plain infinity).
  vm_compute. reflexivity.
Defined.

(** X9 on the three lines of the tail of the examples: the second is
    dropped. *)
Lemma Start_sends_parsed_lines_witness :
  Start tailWorker
  = Ok (omap (parsed (Init tailWorker) ∘ strings_TrimSpace) accessLines).
Proof.
  apply (Start_sends_parsed_lines (H := lib) (H0 := tail) tailWorker accessRegexp
           accessLines).
  - vm_compute. reflexivity.
  - apply accessRegexp_wellFormed.
  - reflexivity.
Defined.

(** X10 on the pattern that does not compile. *)
Lemma Start_panics_on_first_line_witness :
  Start brokenWorker = Panic "invalid memory address or nil pointer dereference".
Proof.
  apply (Start_panics_on_first_line (H := lib) (H0 := tail) brokenWorker accessLines).
  - reflexivity.
  - vm_compute. reflexivity.
  - reflexivity.
Defined.

(** X11 on a run over a path that cannot be opened, one that can, and a
    quit. *)
Lemma Work_only_appends_witness :
  extends (disk sinkWorld)
          (disk (Work sinkWorker
                      [(deniedOutput, WorkMessage statusEvent);
                       (freshOutput, WorkMessage statusEvent);
                       (freshOutput, QuitMessage)] sinkWorld).2).
Proof.
  apply (Work_only_appends (H := lib)). apply sinkWorld_allAppend.
Defined.

(** X13 on a stop under a new path, and an object after it. *)
Lemma FileWorker_Stop_closes_output_witness :
  deadHandle (FileWorker_Stop freshOutput sinkWorker sinkWorld).1
             (FileWorker_Stop freshOutput sinkWorker sinkWorld).2
  ∧ ∃ world',
      Work_step freshOutput (FileWorker_Stop freshOutput sinkWorker sinkWorld).1
                (WorkMessage statusEvent)
                (FileWorker_Stop freshOutput sinkWorker sinkWorld).2
      = ((true, (FileWorker_Stop freshOutput sinkWorker sinkWorld).1), world')
      ∧ disk world' = disk (FileWorker_Stop freshOutput sinkWorker sinkWorld).2.
Proof.
  apply (FileWorker_Stop_closes_output (H := lib) freshOutput freshOutput sinkWorker
           statusEvent sinkWorld).
  vm_compute. reflexivity.
Defined.

(** X14 on a switch to the path that cannot be opened and back. *)
Lemma Work_drops_after_failed_switch_witness :
  (Work sinkWorker [(deniedOutput, WorkMessage statusEvent);
                    (originalOutput, WorkMessage statusEvent)] sinkWorld).1 = sinkWorker
  ∧ disk (Work sinkWorker [(deniedOutput, WorkMessage statusEvent);
                           (originalOutput, WorkMessage statusEvent)] sinkWorld).2
    = disk sinkWorld.
Proof.
  apply (Work_drops_after_failed_switch (H := lib) deniedOutput originalOutput
           sinkWorker statusEvent statusEvent sinkWorld).
  - vm_compute. eauto.
  - vm_compute. discriminate.
  - vm_compute. reflexivity.
  - vm_compute. reflexivity.
Defined.

(** X15 on a sink that has opened nothing yet. *)
Lemma FileWorker_Init_opens_output_witness :
  live (FileWorker_Init freshOutput newSink sinkWorld).1
       (FileWorker_Init freshOutput newSink sinkWorld).2
  ∧ outFileName (FileWorker_Init freshOutput newSink sinkWorld).1
    = ConfiguredFileOutputName freshOutput
  ∧ disk (FileWorker_Init freshOutput newSink sinkWorld).2
    = match disk sinkWorld !! ConfiguredFileOutputName freshOutput with
      | Some _ => disk sinkWorld
      | None => <[ConfiguredFileOutputName freshOutput := ""]> (disk sinkWorld)
      end.
Proof.
  apply (FileWorker_Init_opens_output freshOutput newSink sinkWorld).
  - vm_compute. discriminate.
  - vm_compute. discriminate.
Defined.

(** X16 on the sink of the examples under a new path. *)
Lemma CachedFileHandle_is_cached_witness :
  CachedFileHandle freshOutput (CachedFileHandle freshOutput sinkWorker sinkWorld).1.2
                   (CachedFileHandle freshOutput sinkWorker sinkWorld).2
  = CachedFileHandle freshOutput sinkWorker sinkWorld.
Proof.
  apply (CachedFileHandle_is_cached freshOutput sinkWorker sinkWorld).
  vm_compute. discriminate.
Defined.

(** X17 on two objects through the open file of the examples. *)
Lemma Work_writes_json_lines_witness :
  (Work sinkWorker ((λ obj, (originalOutput, WorkMessage obj))
                      <$> [statusEvent; statusEvent]) sinkWorld).1 = sinkWorker
  ∧ disk (Work sinkWorker ((λ obj, (originalOutput, WorkMessage obj))
                             <$> [statusEvent; statusEvent]) sinkWorld).2
    = <[outFileName sinkWorker :=
          default "" (disk sinkWorld !! outFileName sinkWorker)
            +:+ jsonLines [statusEvent; statusEvent]]> (disk sinkWorld).
Proof.
  apply (Work_writes_json_lines (H := lib) originalOutput sinkWorker
           [statusEvent; statusEvent] sinkWorld).
  - apply sinkWorker_live.
  - vm_compute. eauto.
  - vm_compute. reflexivity.
Defined.

(** X18 on the text of the largest 64-bit integer. *)
Lemma parseString_integer_in_range_witness :
  (- 2 ^ 63 ≤ 9223372036854775807 ≤ 2 ^ 63 - 1)%Z.
Proof.
  apply (parseString_integer_in_range (H := lib) "9223372036854775807" plain).
  vm_compute. reflexivity.
Defined.

(** The tail of the examples delivers three lines, and two events are
    sent. *)
Example Start_tailWorker_sends_two :
  match Start tailWorker with
  | Ok sent => length sent
  | _ => 0%nat
  end = 2%nat.
Proof. vm_compute. reflexivity. Qed.

(** One more than the largest 64-bit integer is no integer. *)
Example ParseInt_overflow : ParseInt "9223372036854775808" = None.
Proof. vm_compute. reflexivity. Qed.

End Checks.
